(** * Collaborative canvas: the operation log and the session gateway

    A shallow embedding of [src/server/drawing-state.js] (class
    [DrawingState]) and of [src/server/server.js] (class [Room] and the
    socket handlers), with the properties of the per-user undo/redo
    engine and of the room registry proved over it. *)

From Stdlib Require Import ZArith String List.
From stdpp Require Import gmap strings list fin_maps.

Local Open Scope string_scope.
Local Open Scope Z_scope.
Local Open Scope list_scope.

(** ** Operations

    The object literal built by the [draw] handler (server.js, l.119-129).
    Coordinates and width are opaque payload for the log: it never computes
    with them, so they are carried as integers. [timestamp] is the value of
    [Date.now()] at receipt. *)

Record Operation : Type := mkOperation {
  type : string;
  userId : string;
  x0 : Z;
  y0 : Z;
  x1 : Z;
  y1 : Z;
  color : string;
  width : Z;
  timestamp : Z
}.

#[global] Instance Operation_eq_dec : EqDecision Operation.
Proof. solve_decision. Defined.

(** ** DrawingState (drawing-state.js) *)

Module DrawingState.

(** [history] is the JS array, [userRedoStacks] the JS [Map] from a
    userId to the array of operations that user undid. *)
Record t : Type := mk {
  history : list Operation;
  userRedoStacks : gmap string (list Operation)
}.

(** [constructor()] *)
Definition new : t := {| history := []; userRedoStacks := ∅ |}.

(** [addOperation(operation)]: push, then [Map.delete] of the author's
    stack. *)
Definition addOperation (operation : Operation) (s : t) : t :=
  {| history := history s ++ [operation];
     userRedoStacks := delete (userId operation) (userRedoStacks s) |}.

(** [getHistory()]: a copy of the array. *)
Definition getHistory (s : t) : list Operation := history s.

(** The [for (let i = length - 1; i >= 0; i--)] loop of
    [undoUserOperation]: [scan h u n] visits the indices [n-1, ..., 0]
    and returns the first one whose operation has [userId === u]. *)
Fixpoint scan (h : list Operation) (u : string) (n : nat) : option nat :=
  match n with
  | O => None
  | S i =>
      match h !! i with
      | Some op => if decide (userId op = u) then Some i else scan h u i
      | None => scan h u i
      end
  end.

(** [array.splice(i, 1)]: the array without index [i], and the removed
    element. *)
Definition splice1 (i : nat) (h : list Operation)
  : list Operation * option Operation :=
  (take i h ++ drop (S i) h, h !! i).

(** [undoUserOperation(userId)] *)
Definition undoUserOperation (u : string) (s : t) : t * bool :=
  match scan (history s) u (length (history s)) with
  | Some i =>
      match splice1 i (history s) with
      | (h', Some operation) =>
          let stacks1 :=
            if decide (is_Some (userRedoStacks s !! u))
            then userRedoStacks s
            else <[u := []]> (userRedoStacks s) in
          let stacks2 := alter (fun stk => stk ++ [operation]) u stacks1 in
          ({| history := h'; userRedoStacks := stacks2 |}, true)
      | (_, None) => (s, false)
      end
  | None => (s, false)
  end.

(** [redoUserOperation(userId)]: [redoStack && redoStack.length > 0],
    then [pop] (which shortens the stored array in place) and [push]. *)
Definition redoUserOperation (u : string) (s : t) : t * bool :=
  match userRedoStacks s !! u with
  | Some redoStack =>
      match last redoStack with
      | Some operation =>
          ({| history := history s ++ [operation];
              userRedoStacks :=
                <[u := removelast redoStack]> (userRedoStacks s) |}, true)
      | None => (s, false)
      end
  | None => (s, false)
  end.

(** [clear()] *)
Definition clear (s : t) : t := {| history := []; userRedoStacks := ∅ |}.

(** The contents of a user's redo stack as [redoUserOperation] sees it:
    an absent entry and an empty array are both read as nothing to redo. *)
Definition redoStackOf (u : string) (s : t) : list Operation :=
  default [] (userRedoStacks s !! u).

End DrawingState.

(** ** JavaScript [Map] with its insertion order

    [Room.users], [Room.cursorPositions] and the registry [rooms] are
    iterated ([entries()], [forEach]), so their order is part of the
    behaviour: the entries are kept in insertion order, [set] on a present
    key overwrites in place, on an absent key appends. *)

Module JsMap.
Section Ordered.
Context {V : Type}.

Fixpoint get (k : string) (m : list (string * V)) : option V :=
  match m with
  | [] => None
  | (k', v) :: m' => if decide (k' = k) then Some v else get k m'
  end.

Definition has (k : string) (m : list (string * V)) : bool :=
  match get k m with Some _ => true | None => false end.

Fixpoint set (k : string) (v : V) (m : list (string * V))
  : list (string * V) :=
  match m with
  | [] => [(k, v)]
  | (k', v') :: m' =>
      if decide (k' = k) then (k, v) :: m' else (k', v') :: set k v m'
  end.

Fixpoint delete (k : string) (m : list (string * V))
  : list (string * V) :=
  match m with
  | [] => []
  | (k', v') :: m' =>
      if decide (k' = k) then m' else (k', v') :: delete k m'
  end.

Definition size (m : list (string * V)) : nat := length m.

Definition keys (m : list (string * V)) : list string := map fst m.

Definition values (m : list (string * V)) : list V := map snd m.
End Ordered.

Definition t (V : Type) : Type := list (string * V).
End JsMap.

(** ** Room (server.js, l.25-57) *)

Record UserData : Type := mkUserData {
  socketId : string;
  name : string
}.

Module Position.
Record t : Type := mk { x : Z; y : Z }.
End Position.

(** One element of the array built by [getCursors()]. *)
Record CursorEntry : Type := mkCursorEntry {
  cursor_userId : string;
  cursor_x : Z;
  cursor_y : Z
}.

Module Room.

Record t : Type := mk {
  roomId : string;
  users : JsMap.t UserData;
  cursorPositions : JsMap.t Position.t;
  drawingState : DrawingState.t
}.

(** [constructor(roomId)] *)
Definition new (roomId : string) : t :=
  {| roomId := roomId; users := []; cursorPositions := [];
     drawingState := DrawingState.new |}.

Definition addUser (userId socketId name : string) (r : t) : t :=
  {| roomId := roomId r;
     users := JsMap.set userId (mkUserData socketId name) (users r);
     cursorPositions := cursorPositions r;
     drawingState := drawingState r |}.

Definition removeUser (userId : string) (r : t) : t :=
  {| roomId := roomId r;
     users := JsMap.delete userId (users r);
     cursorPositions := JsMap.delete userId (cursorPositions r);
     drawingState := drawingState r |}.

Definition updateCursor (userId : string) (x y : Z) (r : t) : t :=
  {| roomId := roomId r;
     users := users r;
     cursorPositions :=
       JsMap.set userId (Position.mk x y) (cursorPositions r);
     drawingState := drawingState r |}.

Definition getUsers (r : t) : list UserData := JsMap.values (users r).

Definition getCursors (r : t) : list CursorEntry :=
  map (fun e => mkCursorEntry (fst e) (Position.x (snd e))
                              (Position.y (snd e)))
      (cursorPositions r).

(** The room with its log replaced: the handlers mutate
    [room.drawingState] in place. *)
Definition withDrawingState (d : DrawingState.t) (r : t) : t :=
  {| roomId := roomId r; users := users r;
     cursorPositions := cursorPositions r; drawingState := d |}.

End Room.

(** ** The socket handlers (server.js, l.60-238) *)

(** One element of a [users] array of an outbound payload: the handlers
    build it as [{userId, name, color}] (the cursor handler spells the
    second key [userName]); [color] is [userColors.get(id)], which may be
    [undefined]. *)
Record UserInfo : Type := mkUserInfo {
  info_userId : string;
  info_name : string;
  info_color : option string
}.

Inductive Target : Type :=
  | ToSocket (sid : string)                 (* socket.emit *)
  | ToRoom (roomId : string)                (* io.to(roomId).emit *)
  | ToRoomExcept (roomId sid : string).     (* socket.to(roomId).emit *)

Inductive Message : Type :=
  | DrawingHistory (operations : list Operation) (userId : string)
      (color : option string) (users : list UserInfo)
  | UserJoined (userId userName : string) (color : option string)
      (users : list UserInfo)
  | NewDrawOperation (userId : string) (x0 y0 x1 y1 : Z) (color : string)
      (width : Z)
  | UserCursors (cursors : list CursorEntry) (users : list UserInfo)
  | DrawingHistoryUndoRedo (operations : list Operation)
  | DrawingHistoryCleared
  | UserLeft (userId : string) (users : list UserInfo).

Record Emit : Type := mkEmit { target : Target; message : Message }.

(** Inbound events. [Draw] carries the value [Date.now()] returns while the
    handler runs. *)
Inductive Event : Type :=
  | JoinRoom (roomId userId userName : string)
  | Draw (roomId userId : string) (x0 y0 x1 y1 : Z) (color : string)
      (width : Z) (now : Z)
  | CursorMove (roomId userId : string) (x y : Z)
  | RequestUndo (roomId userId : string)
  | RequestRedo (roomId userId : string)
  | ClearCanvas (roomId : string)
  | Disconnect.

(** The process state: the two global maps of server.js and, per socket
    id, [socket.rooms] (the socket.io rooms the connection is in, in
    insertion order, its own id first). *)
Record Server : Type := mkServer {
  rooms : JsMap.t Room.t;
  userColors : gmap string string;
  socketRooms : gmap string (list string)
}.

Definition initial : Server :=
  {| rooms := []; userColors := ∅; socketRooms := ∅ |}.

(** [socket.rooms] of a connection that has not joined anything yet is
    the singleton of its own id. *)
Definition socket_rooms (sid : string) (st : Server) : list string :=
  default [sid] (socketRooms st !! sid).

(** [socket.join(r)]: [Set.add]. *)
Definition socket_join (r : string) (rs : list string) : list string :=
  if decide (r ∈ rs) then rs else rs ++ [r].

(** [socket.leave(r)]: [Set.delete]. *)
Definition socket_leave (r : string) (rs : list string) : list string :=
  filter (fun r' => r' ≠ r) rs.

(** The palette of the [join-room] handler (l.85). *)
Definition colors : list string :=
  ["#FF6B6B"; "#4ECDC4"; "#45B7D1"; "#FFA07A";
   "#98D8C8"; "#F7DC6F"; "#BB8FCE"; "#85C1E2"].

(** [Array.from(room.users.entries()).map(([id, userData]) => ...)] *)
Definition usersWithColors (us : JsMap.t UserData)
    (uc : gmap string string) : list UserInfo :=
  map (fun e => mkUserInfo (fst e) (name (snd e)) (uc !! fst e)) us.

(** [socket.on("join-room")], l.64-110. *)
Definition on_join_room (sid roomId userId userName : string)
    (st : Server) : Server * list Emit :=
  (* Leave previous room if any, then join the new one. The test
     [if (previousRoom)] is one of truthiness: a room found under the
     empty string is not left. *)
  let rs0 := socket_rooms sid st in
  let rs1 :=
    match find (fun r => bool_decide (r ≠ sid)) rs0 with
    | Some previousRoom =>
        if decide (previousRoom = "") then rs0
        else socket_leave previousRoom rs0
    | None => rs0
    end in
  let rs2 := socket_join roomId rs1 in
  (* Get or create room *)
  let rooms1 :=
    if JsMap.has roomId (rooms st) then rooms st
    else JsMap.set roomId (Room.new roomId) (rooms st) in
  match JsMap.get roomId rooms1 with
  | Some room0 =>
      let room := Room.addUser userId sid userName room0 in
      (* Assign a color to this user *)
      let colorIndex :=
        (JsMap.size (Room.users room) mod length colors)%nat in
      let userColors1 :=
        <[userId := nth colorIndex colors ""]> (userColors st) in
      let us := usersWithColors (Room.users room) userColors1 in
      ({| rooms := JsMap.set roomId room rooms1;
          userColors := userColors1;
          socketRooms := <[sid := rs2]> (socketRooms st) |},
       [ mkEmit (ToSocket sid)
           (DrawingHistory
              (DrawingState.getHistory (Room.drawingState room))
              userId (userColors1 !! userId) us);
         mkEmit (ToRoomExcept roomId sid)
           (UserJoined userId userName (userColors1 !! userId) us) ])
  | None => (st, [])
  end.

(** [socket.on("draw")], l.113-142: the log is touched under [if (room)],
    the broadcast is outside of it. *)
Definition on_draw (roomId userId : string) (x0 y0 x1 y1 : Z)
    (color : string) (width : Z) (now : Z) (st : Server)
    : Server * list Emit :=
  let rooms1 :=
    match JsMap.get roomId (rooms st) with
    | Some room =>
        JsMap.set roomId
          (Room.withDrawingState
             (DrawingState.addOperation
                (mkOperation "draw" userId x0 y0 x1 y1 color width now)
                (Room.drawingState room))
             room)
          (rooms st)
    | None => rooms st
    end in
  ({| rooms := rooms1; userColors := userColors st;
      socketRooms := socketRooms st |},
   [ mkEmit (ToRoom roomId)
       (NewDrawOperation userId x0 y0 x1 y1 color width) ]).

(** [socket.on("cursor-move")], l.145-160. *)
Definition on_cursor_move (sid roomId userId : string) (x y : Z)
    (st : Server) : Server * list Emit :=
  match JsMap.get roomId (rooms st) with
  | Some room0 =>
      let room := Room.updateCursor userId x y room0 in
      ({| rooms := JsMap.set roomId room (rooms st);
          userColors := userColors st;
          socketRooms := socketRooms st |},
       [ mkEmit (ToRoomExcept roomId sid)
           (UserCursors (Room.getCursors room)
              (usersWithColors (Room.users room) (userColors st))) ])
  | None => (st, [])
  end.

(** [socket.on("request-undo")], l.162-175. The boolean returned by
    [undoUserOperation] is not looked at. *)
Definition on_request_undo (roomId userId : string) (st : Server)
    : Server * list Emit :=
  match JsMap.get roomId (rooms st) with
  | Some room =>
      let d := fst (DrawingState.undoUserOperation userId
                      (Room.drawingState room)) in
      ({| rooms := JsMap.set roomId (Room.withDrawingState d room) (rooms st);
          userColors := userColors st;
          socketRooms := socketRooms st |},
       [ mkEmit (ToRoom roomId)
           (DrawingHistoryUndoRedo (DrawingState.getHistory d)) ])
  | None => (st, [])
  end.

(** [socket.on("request-redo")], l.177-190. *)
Definition on_request_redo (roomId userId : string) (st : Server)
    : Server * list Emit :=
  match JsMap.get roomId (rooms st) with
  | Some room =>
      let d := fst (DrawingState.redoUserOperation userId
                      (Room.drawingState room)) in
      ({| rooms := JsMap.set roomId (Room.withDrawingState d room) (rooms st);
          userColors := userColors st;
          socketRooms := socketRooms st |},
       [ mkEmit (ToRoom roomId)
           (DrawingHistoryUndoRedo (DrawingState.getHistory d)) ])
  | None => (st, [])
  end.

(** [socket.on("clear-canvas")], l.193-205. *)
Definition on_clear_canvas (roomId : string) (st : Server)
    : Server * list Emit :=
  match JsMap.get roomId (rooms st) with
  | Some room =>
      ({| rooms :=
            JsMap.set roomId
              (Room.withDrawingState
                 (DrawingState.clear (Room.drawingState room)) room)
              (rooms st);
          userColors := userColors st;
          socketRooms := socketRooms st |},
       [ mkEmit (ToRoom roomId) DrawingHistoryCleared ])
  | None => (st, [])
  end.

(** The body of [rooms.forEach] in the disconnect handler, l.212-236, over
    the registry entries in insertion order: in each room the first user
    entry whose [socketId] is the closing socket is removed, with its
    color; a room left without users is deleted from the registry. *)
Fixpoint disconnect_rooms (sid : string) (todo : list (string * Room.t))
    (uc : gmap string string)
    : list (string * Room.t) * gmap string string * list Emit :=
  match todo with
  | [] => ([], uc, [])
  | (roomId, room0) :: rest =>
      match find (fun e => bool_decide (socketId (snd e) = sid))
                 (Room.users room0) with
      | Some userEntry =>
          let userId := fst userEntry in
          let room := Room.removeUser userId room0 in
          let uc1 := delete userId uc in
          let out :=
            mkEmit (ToRoom roomId)
              (UserLeft userId (usersWithColors (Room.users room) uc1)) in
          let '(rest', uc2, outs) := disconnect_rooms sid rest uc1 in
          (if decide (JsMap.size (Room.users room) = 0%nat)
           then rest' else (roomId, room) :: rest',
           uc2, out :: outs)
      | None =>
          let '(rest', uc2, outs) := disconnect_rooms sid rest uc in
          ((roomId, room0) :: rest', uc2, outs)
      end
  end.

(** [socket.on("disconnect")]: socket.io has already taken the socket out
    of all its rooms when the handler runs. *)
Definition on_disconnect (sid : string) (st : Server)
    : Server * list Emit :=
  let '(rooms1, uc1, outs) := disconnect_rooms sid (rooms st) (userColors st) in
  ({| rooms := rooms1; userColors := uc1;
      socketRooms := delete sid (socketRooms st) |}, outs).

(** One inbound event of the connection [sid]. *)
Definition handle (sid : string) (ev : Event) (st : Server)
    : Server * list Emit :=
  match ev with
  | JoinRoom roomId userId userName =>
      on_join_room sid roomId userId userName st
  | Draw roomId userId x0 y0 x1 y1 color width now =>
      on_draw roomId userId x0 y0 x1 y1 color width now st
  | CursorMove roomId userId x y => on_cursor_move sid roomId userId x y st
  | RequestUndo roomId userId => on_request_undo roomId userId st
  | RequestRedo roomId userId => on_request_redo roomId userId st
  | ClearCanvas roomId => on_clear_canvas roomId st
  | Disconnect => on_disconnect sid st
  end.

(** A run of the server: the events in arrival order, each with the id of
    the socket it arrived on; the emitted messages are collected in
    order. *)
Fixpoint run (evs : list (string * Event)) (st : Server)
    : Server * list Emit :=
  match evs with
  | [] => (st, [])
  | (sid, ev) :: evs' =>
      let '(st1, out1) := handle sid ev st in
      let '(st2, out2) := run evs' st1 in
      (st2, out1 ++ out2)
  end.

(** ** Replaying log commands

    The four mutating operations of the log as commands, for the
    invariants that hold along every run from the empty log. *)

Inductive LogCmd : Type :=
  | Append (op : Operation)
  | Undo (u : string)
  | Redo (u : string)
  | Clear.

Module Replay.
Import DrawingState.

Definition step (c : LogCmd) (s : t) : t :=
  match c with
  | Append op => addOperation op s
  | Undo u => fst (undoUserOperation u s)
  | Redo u => fst (redoUserOperation u s)
  | Clear => clear s
  end.

Definition exec (cs : list LogCmd) (s : t) : t :=
  fold_left (fun acc c => step c acc) cs s.

(** Every operation held anywhere in the log: in [history] or in some
    user's redo stack. *)
Definition all_ops (s : t) : list Operation :=
  history s ++ mjoin ((map_to_list (userRedoStacks s)).*2).

(** Each appended operation is a value the log does not hold at the
    time it is appended. *)
Fixpoint fresh_appends (cs : list LogCmd) (s : t) : bool :=
  match cs with
  | [] => true
  | c :: cs' =>
      match c with
      | Append op => bool_decide (op ∉ all_ops s)
      | _ => true
      end && fresh_appends cs' (step c s)
  end.

(** The invariant carried through a run: no value twice in [history],
    none twice in a redo stack, a redo stack holds only operations of
    its own user, and none of them is in [history]. *)
Definition inv (s : t) : Prop :=
  NoDup (history s) ∧
  ∀ u stk, userRedoStacks s !! u = Some stk →
    NoDup stk ∧ ∀ op, op ∈ stk → userId op = u ∧ op ∉ history s.
End Replay.

(** A registry is well formed when no room id is listed twice, as in a
    [Map]. *)
Definition wf (st : Server) : Prop := NoDup (JsMap.keys (rooms st)).

(** A room keeps every key of its users and cursor maps. *)
Definition keeps_members (room room' : Room.t) : Prop :=
  (∀ u, JsMap.has u (Room.users room) = true →
        JsMap.has u (Room.users room') = true) ∧
  (∀ u, JsMap.has u (Room.cursorPositions room) = true →
        JsMap.has u (Room.cursorPositions room') = true).

(** ** Sample logs and sessions

    Concrete data on which the statements below are evaluated. *)

Module Sample.

Definition drawA : Operation :=
  mkOperation "draw" "A" 0 0 5 5 "#FF0000" 3 1000.
Definition drawB : Operation :=
  mkOperation "draw" "B" 10 10 15 15 "#0000FF" 2 1001.
Definition drawC : Operation :=
  mkOperation "draw" "C" 20 20 25 25 "#00FF00" 4 1002.

(** History [[Draw(A), Draw(B), Draw(C)]], no redo stack. *)
Definition log3 : DrawingState.t :=
  DrawingState.mk [drawA; drawB; drawC] ∅.

(** History [[Draw(B), Draw(C)]], A's redo stack [[Draw(A)]]. *)
Definition logRedo : DrawingState.t :=
  DrawingState.mk [drawB; drawC] {[ "A" := [drawA] ]}.

Definition session : list LogCmd :=
  [Append drawA; Append drawB; Undo "A"; Append drawC; Redo "A";
   Undo "B"; Undo "A"; Redo "B"; Clear; Append drawA].

(** Two connections join room r under one userId; the second one
    closes, which empties and deletes the room while the first
    connection is still in the socket.io room r. *)
Definition ghost_events : list (string * Event) :=
  [("s1", JoinRoom "r" "u" "U1"); ("s2", JoinRoom "r" "u" "U2");
   ("s2", Disconnect)].
Definition ghost_state : Server := fst (run ghost_events initial).

(** Alice and Bob join room r, Alice draws one segment and leaves. *)
Definition departed_events : list (string * Event) :=
  [("s1", JoinRoom "r" "alice" "Alice"); ("s2", JoinRoom "r" "bob" "Bob");
   ("s1", Draw "r" "alice" 0 0 5 5 "#FF0000" 3 1000); ("s1", Disconnect)].
Definition departed_state : Server := fst (run departed_events initial).

(** Bob's connection then asks to undo, and to redo, naming alice. *)
Definition departed_undone : Server :=
  fst (handle "s2" (RequestUndo "r" "alice") departed_state).
Definition departed_redone : Server :=
  fst (handle "s2" (RequestRedo "r" "alice") departed_undone).
Definition aliceOp : Operation :=
  mkOperation "draw" "alice" 0 0 5 5 "#FF0000" 3 1000.

(** Seven users in room r. *)
Definition seven_events : list (string * Event) :=
  [("s1", JoinRoom "r" "u1" "U1"); ("s2", JoinRoom "r" "u2" "U2");
   ("s3", JoinRoom "r" "u3" "U3"); ("s4", JoinRoom "r" "u4" "U4");
   ("s5", JoinRoom "r" "u5" "U5"); ("s6", JoinRoom "r" "u6" "U6");
   ("s7", JoinRoom "r" "u7" "U7")].
Definition seven_state : Server := fst (run seven_events initial).

(** Alice, alone in room a, has drawn a segment and moved the cursor. *)
Definition alone_events : list (string * Event) :=
  [("s1", JoinRoom "a" "alice" "Alice");
   ("s1", Draw "a" "alice" 0 0 5 5 "#FF0000" 3 1000);
   ("s1", CursorMove "a" "alice" 7 9)].
Definition alone_state : Server := fst (run alone_events initial).

End Sample.

(** ** Views of the log used by the further properties *)

Module LogViews.
Import DrawingState.

(** The operations of user [u] in a sequence, in order, and those of
    everybody else. *)
Definition own (u : string) (h : list Operation) : list Operation :=
  filter (fun o => userId o = u) h.

Definition others (u : string) (h : list Operation) : list Operation :=
  filter (fun o => userId o ≠ u) h.

(** Every redo stack holds only operations of the user it is stored
    under. *)
Definition own_stacks (s : t) : Prop :=
  ∀ u stk op, userRedoStacks s !! u = Some stk → op ∈ stk → userId op = u.

(** [n] calls of [undoUserOperation(u)], resp. [redoUserOperation(u)], in
    a row. *)
Definition undo_times (n : nat) (u : string) (s : t) : t :=
  Nat.iter n (fun s' => fst (undoUserOperation u s')) s.

Definition redo_times (n : nat) (u : string) (s : t) : t :=
  Nat.iter n (fun s' => fst (redoUserOperation u s')) s.

End LogViews.

(** ** Invariants of the registry *)

(** The room an inbound event names, if any. *)
Definition addressed (ev : Event) : option string :=
  match ev with
  | JoinRoom roomId _ _ => Some roomId
  | Draw roomId _ _ _ _ _ _ _ _ => Some roomId
  | CursorMove roomId _ _ _ => Some roomId
  | RequestUndo roomId _ => Some roomId
  | RequestRedo roomId _ => Some roomId
  | ClearCanvas roomId => Some roomId
  | Disconnect => None
  end.

(** What holds of a room stored under the id [k]: it carries that id, it
    has a user, its two maps list no key twice and its redo stacks hold
    their owners' operations. *)
Definition room_ok (k : string) (room : Room.t) : Prop :=
  Room.roomId room = k ∧
  Room.users room ≠ [] ∧
  NoDup (JsMap.keys (Room.users room)) ∧
  NoDup (JsMap.keys (Room.cursorPositions room)) ∧
  LogViews.own_stacks (Room.drawingState room).

Definition registry_ok (st : Server) : Prop :=
  NoDup (JsMap.keys (rooms st)) ∧
  Forall (fun e => room_ok (fst e) (snd e)) (rooms st).

(** The socket.io rooms of the connection [sid]: its own room alone; its
    own room and one other, not named by the empty string; or its own
    room followed by the room named by the empty string and whatever it
    has joined since. *)
Definition socket_shape (sid : string) (rs : list string) : Prop :=
  rs = [sid] ∨
  (∃ r, r ≠ sid ∧ r ≠ "" ∧ rs = [sid; r]) ∨
  (sid ≠ "" ∧ ∃ more, rs = sid :: "" :: more).

Definition sockets_ok (st : Server) : Prop :=
  ∀ sid rs, socketRooms st !! sid = Some rs → socket_shape sid rs.

(** ** Further sample data *)

Module MoreSamples.
Import Sample.

Definition drawA2 : Operation :=
  mkOperation "draw" "A" 5 5 9 9 "#FF0000" 3 1003.
Definition drawA3 : Operation :=
  mkOperation "draw" "A" 9 9 12 7 "ERASER" 8 1004.

(** A, B, A, C, A have drawn in this order; B has one stroke to redo. *)
Definition logMixed : DrawingState.t :=
  DrawingState.mk [drawA; drawB; drawA2; drawC; drawA3]
    {[ "B" := [drawB] ]}.

Definition busy_session : list LogCmd :=
  [Append drawA; Append drawB; Undo "A"; Undo "B"; Append drawA2;
   Redo "B"; Append drawC; Undo "C"].

(** Alice is alone in room r. *)
Definition solo_state : Server :=
  fst (handle "s1" (JoinRoom "r" "alice" "Alice") initial).

(** One connection registers two userIds in room r. *)
Definition twice_events : list (string * Event) :=
  [("s1", JoinRoom "r" "u1" "One"); ("s1", JoinRoom "r" "u2" "Two");
   ("s2", JoinRoom "r" "bob" "Bob")].
Definition twice_state : Server := fst (run twice_events initial).

(** A connection joins the room named by the empty string, then b. *)
Definition nameless_events : list (string * Event) :=
  [("s1", JoinRoom "" "u1" "One"); ("s1", JoinRoom "b" "u1" "One")].
Definition nameless_state : Server := fst (run nameless_events initial).

End MoreSamples.

(** ** The client canvas (class [CanvasDrawing])

    The 2D context is the browser's: it is kept as the sequence of calls
    and property assignments the code makes on it, oldest first. *)

Module Canvas2D.

Inductive Call : Type :=
  | clearRect (x y w h : Z)
  | beginPath
  | moveTo (x y : Z)
  | lineTo (x y : Z)
  | strokeStyle (v : string)
  | lineWidth (v : Z)
  | lineCap (v : string)
  | lineJoin (v : string)
  | globalCompositeOperation (v : string)
  | stroke.

(** *** What a sequence of context calls paints

    The reading of the calls follows the Canvas 2D API: [beginPath]
    empties the current path, [moveTo] and [lineTo] add a point to it,
    the assignments set the drawing state and [stroke] paints the
    current path with the drawing state of that moment. An assignment
    of a width that is not positive, or of a [strokeStyle] that is not
    a color, is ignored: the previous value stays. Every [clearRect] of
    the code covers the whole canvas, so it erases what was painted; it
    does not touch the drawing state. *)

Record Painted : Type := mkPainted {
  painted_path : list (Z * Z);
  painted_style : string;
  painted_width : Z;
  painted_cap : string;
  painted_join : string;
  painted_composite : string
}.

Record Context : Type := mkContext {
  path : list (Z * Z);
  style : string;
  width_ : Z;
  cap : string;
  join : string;
  composite : string;
  surface : list Painted
}.

(** The drawing state of a fresh 2D context. *)
Definition fresh : Context :=
  mkContext [] "#000000" 1 "butt" "miter" "source-over" [].

Section Rendering.

(** The strings the browser reads as a color. *)
Variable parses : string → bool.

Definition apply (k : Call) (s : Context) : Context :=
  match k with
  | clearRect _ _ _ _ =>
      mkContext (path s) (style s) (width_ s) (cap s) (join s)
        (composite s) []
  | beginPath =>
      mkContext [] (style s) (width_ s) (cap s) (join s) (composite s)
        (surface s)
  | moveTo x y | lineTo x y =>
      mkContext (path s ++ [(x, y)]) (style s) (width_ s) (cap s) (join s)
        (composite s) (surface s)
  | strokeStyle v =>
      if parses v
      then mkContext (path s) v (width_ s) (cap s) (join s) (composite s)
             (surface s)
      else s
  | lineWidth v =>
      if decide (0 < v)
      then mkContext (path s) (style s) v (cap s) (join s) (composite s)
             (surface s)
      else s
  | lineCap v =>
      mkContext (path s) (style s) (width_ s) v (join s) (composite s)
        (surface s)
  | lineJoin v =>
      mkContext (path s) (style s) (width_ s) (cap s) v (composite s)
        (surface s)
  | globalCompositeOperation v =>
      mkContext (path s) (style s) (width_ s) (cap s) (join s) v
        (surface s)
  | stroke =>
      mkContext (path s) (style s) (width_ s) (cap s) (join s)
        (composite s)
        (surface s
           ++ [mkPainted (path s) (style s) (width_ s) (cap s) (join s)
                 (composite s)])
  end.

Definition run_calls (ks : list Call) (s : Context) : Context :=
  fold_left (fun acc k => apply k acc) ks s.

(** A segment of this color and width can be painted as such: the width
    is positive and the color is ["ERASER"] or one the browser reads. *)
Definition paintable (color : string) (width : Z) : bool :=
  bool_decide (0 < width) && (bool_decide (color = "ERASER") || parses color).

End Rendering.

(** The segments on the canvas after the calls [ks] on a fresh
    context. *)
Definition shows (parses : string → bool) (ks : list Call) : list Painted :=
  surface (run_calls parses ks fresh).

(** How one segment of the given color and width is painted: the color
    ["ERASER"] erases. *)
Definition segment (x0 y0 x1 y1 : Z) (color : string) (width : Z)
    : Painted :=
  mkPainted [(x0, y0); (x1, y1)]
    (if decide (color = "ERASER") then "#FFFFFF" else color)
    width "round" "round"
    (if decide (color = "ERASER") then "destination-out" else "source-over").

End Canvas2D.

(** The object [draw] hands to its callback. *)
Record DrawData : Type := mkDrawData {
  data_x0 : Z;
  data_y0 : Z;
  data_x1 : Z;
  data_y1 : Z;
  data_color : string;
  data_width : Z
}.

Module CanvasDrawing.
Import Canvas2D.

(** [canvasWidth], [canvasHeight] and [cursor] stand for [canvas.width],
    [canvas.height] and [canvas.style.cursor]; [ctx] holds the calls made
    on [this.ctx]. *)
Record t : Type := mk {
  canvasWidth : Z;
  canvasHeight : Z;
  cursor : string;
  ctx : list Call;
  isDrawing : bool;
  currentColor : string;
  currentWidth : Z;
  currentTool : string;
  lastX : Z;
  lastY : Z;
  drawingBuffer : list (Z * Z)
}.

(** [constructor(canvasId)] when the element exists, [resizeCanvas()]
    having read the container's [clientWidth] and [clientHeight]. *)
Definition new (clientWidth clientHeight : Z) (cursor : string) : t :=
  {| canvasWidth := clientWidth; canvasHeight := clientHeight;
     cursor := cursor; ctx := [];
     isDrawing := false; currentColor := "#000000"; currentWidth := 3;
     currentTool := "brush"; lastX := 0; lastY := 0; drawingBuffer := [] |}.

Definition startDrawing (x y : Z) (c : t) : t :=
  {| canvasWidth := canvasWidth c; canvasHeight := canvasHeight c;
     cursor := cursor c; ctx := ctx c;
     isDrawing := true; currentColor := currentColor c;
     currentWidth := currentWidth c; currentTool := currentTool c;
     lastX := x; lastY := y; drawingBuffer := [(x, y)] |}.

(** The color [draw] reports to its callback (l.83). *)
Definition reportedColor (c : t) : string :=
  if decide (currentTool c = "eraser") then "ERASER" else currentColor c.

(** [draw(x, y, emitCallback)]: the new canvas and, when a callback is
    given, the object it is called with. *)
Definition draw (x y : Z) (emitCallback : bool) (c : t)
    : t * option DrawData :=
  if negb (isDrawing c) then (c, None)
  else
    ({| canvasWidth := canvasWidth c; canvasHeight := canvasHeight c;
        cursor := cursor c;
        ctx := ctx c ++
          [ beginPath;
            moveTo (lastX c) (lastY c);
            lineTo x y;
            strokeStyle (if decide (currentTool c = "eraser")
                         then "#FFFFFF" else currentColor c);
            lineWidth (currentWidth c);
            lineCap "round";
            lineJoin "round";
            globalCompositeOperation
              (if decide (currentTool c = "eraser")
               then "destination-out" else "source-over");
            stroke ];
        isDrawing := isDrawing c; currentColor := currentColor c;
        currentWidth := currentWidth c; currentTool := currentTool c;
        lastX := x; lastY := y;
        drawingBuffer := drawingBuffer c ++ [(x, y)] |},
     if emitCallback
     then Some (mkDrawData (lastX c) (lastY c) x y (reportedColor c)
                  (currentWidth c))
     else None).

Definition stopDrawing (c : t) : t :=
  {| canvasWidth := canvasWidth c; canvasHeight := canvasHeight c;
     cursor := cursor c; ctx := ctx c;
     isDrawing := false; currentColor := currentColor c;
     currentWidth := currentWidth c; currentTool := currentTool c;
     lastX := lastX c; lastY := lastY c; drawingBuffer := [] |}.

(** The canvas with other calls recorded on its context. *)
Definition withCtx (calls : list Call) (c : t) : t :=
  {| canvasWidth := canvasWidth c; canvasHeight := canvasHeight c;
     cursor := cursor c; ctx := calls;
     isDrawing := isDrawing c; currentColor := currentColor c;
     currentWidth := currentWidth c; currentTool := currentTool c;
     lastX := lastX c; lastY := lastY c;
     drawingBuffer := drawingBuffer c |}.

(** The body of the [forEach] of [redrawCanvas] for one operation. *)
Definition replay_one (op : Operation) : list Call :=
  if decide (type op = "draw") then
    [ beginPath;
      moveTo (x0 op) (y0 op);
      lineTo (x1 op) (y1 op);
      strokeStyle (if decide (color op = "ERASER")
                   then "#FFFFFF" else color op);
      lineWidth (width op);
      lineCap "round";
      lineJoin "round";
      globalCompositeOperation
        (if decide (color op = "ERASER")
         then "destination-out" else "source-over");
      stroke ]
  else [].

(** Every operation of type ["draw"] among [ops] can be painted as its
    color and width say. *)
Definition paintable_ops (parses : string → bool) (ops : list Operation)
    : Prop :=
  Forall (fun op => type op = "draw" →
                    paintable parses (color op) (width op) = true) ops.

(** [redrawCanvas(operations)]; [None] is a missing ([undefined])
    argument. *)
Definition redrawCanvas (operations : option (list Operation)) (c : t) : t :=
  let cleared :=
    ctx c ++ [ clearRect 0 0 (canvasWidth c) (canvasHeight c);
               globalCompositeOperation "source-over" ] in
  match operations with
  | None | Some [] => withCtx cleared c
  | Some ops =>
      withCtx (cleared ++ flat_map replay_one ops
                 ++ [ globalCompositeOperation "source-over" ]) c
  end.

Definition clearCanvas (c : t) : t :=
  withCtx (ctx c ++ [clearRect 0 0 (canvasWidth c) (canvasHeight c)]) c.

Definition setColor (color : string) (c : t) : t :=
  {| canvasWidth := canvasWidth c; canvasHeight := canvasHeight c;
     cursor := cursor c; ctx := ctx c;
     isDrawing := isDrawing c; currentColor := color;
     currentWidth := currentWidth c; currentTool := currentTool c;
     lastX := lastX c; lastY := lastY c;
     drawingBuffer := drawingBuffer c |}.

Definition setWidth (width : Z) (c : t) : t :=
  {| canvasWidth := canvasWidth c; canvasHeight := canvasHeight c;
     cursor := cursor c; ctx := ctx c;
     isDrawing := isDrawing c; currentColor := currentColor c;
     currentWidth := width; currentTool := currentTool c;
     lastX := lastX c; lastY := lastY c;
     drawingBuffer := drawingBuffer c |}.

Definition setTool (tool : string) (c : t) : t :=
  {| canvasWidth := canvasWidth c; canvasHeight := canvasHeight c;
     cursor := if decide (tool = "eraser") then "cell" else "crosshair";
     ctx := ctx c;
     isDrawing := isDrawing c; currentColor := currentColor c;
     currentWidth := currentWidth c; currentTool := tool;
     lastX := lastX c; lastY := lastY c;
     drawingBuffer := drawingBuffer c |}.

(** A stroke from the pointer's side: [draw] at each point in turn, with
    a callback; the objects handed to the callback are collected. *)
Fixpoint draw_points (pts : list (Z * Z)) (c : t) : t * list DrawData :=
  match pts with
  | [] => (c, [])
  | (x, y) :: pts' =>
      let '(c1, d) := draw x y true c in
      let '(c2, ds) := draw_points pts' c1 in
      (c2, from_option (fun d => [d]) [] d ++ ds)
  end.

(** The segments joining consecutive points, from [(x, y)] on. *)
Fixpoint segments (x y : Z) (pts : list (Z * Z)) (color : string)
    (width : Z) : list DrawData :=
  match pts with
  | [] => []
  | (x', y') :: pts' =>
      mkDrawData x y x' y' color width :: segments x' y' pts' color width
  end.

End CanvasDrawing.

(** ** The client connection (class [WebSocketClient], websocket.js) *)

Module WebSocketClient.
Import Canvas2D.

(** The [socket.emit] calls of the client, with their payloads. *)
Inductive Outbound : Type :=
  | emit_join_room (roomId userId userName : string)
  | emit_draw (roomId userId : string) (x0 y0 x1 y1 : Z) (color : string)
      (width : Z)
  | emit_cursor_move (roomId userId : string) (x y : Z)
  | emit_request_undo (roomId userId : string) (operationId : Z)
  | emit_request_redo (roomId userId : string) (operationId : Z)
  | emit_clear_canvas (roomId : string).

(** [socket] tells whether [this.socket] is set, [onUsersUpdate]
    whether that callback is. *)
Record t : Type := mk {
  socket : bool;
  roomId : string;
  userId : string;
  userName : string;
  isConnected : bool;
  onUsersUpdate : bool;
  currentUsers : list UserInfo;
  localUndoStack : list Operation;
  localRedoStack : list Operation
}.

(** [constructor(canvasDrawing)], with the id [generateUserId()]
    returned. *)
Definition new (generatedUserId : string) : t :=
  {| socket := false; roomId := "default-room"; userId := generatedUserId;
     userName := "User"; isConnected := false; onUsersUpdate := false;
     currentUsers := []; localUndoStack := []; localRedoStack := [] |}.



(** The client with other local stacks. *)
Definition withStacks (undo redo : list Operation) (c : t) : t :=
  {| socket := socket c; roomId := roomId c; userId := userId c;
     userName := userName c; isConnected := isConnected c;
     onUsersUpdate := onUsersUpdate c; currentUsers := currentUsers c;
     localUndoStack := undo; localRedoStack := redo |}.

(** [sendDrawing(...)]; [now] is the value of [Date.now()]. *)
Definition sendDrawing (x0 y0 x1 y1 : Z) (color : string) (width : Z)
    (now : Z) (c : t) : t * list Outbound :=
  if socket c && isConnected c
  then
    (withStacks
       (localUndoStack c
          ++ [mkOperation "draw" (userId c) x0 y0 x1 y1 color width now])
       [] c,
     [emit_draw (roomId c) (userId c) x0 y0 x1 y1 color width])
  else (c, []).

Definition sendCursorPosition (x y : Z) (c : t) : t * list Outbound :=
  if socket c && isConnected c
  then (c, [emit_cursor_move (roomId c) (userId c) x y])
  else (c, []).

Definition requestUndo (c : t) : t * list Outbound :=
  if socket c && isConnected c
  then
    match last (localUndoStack c) with
    | Some lastOperation =>
        (withStacks (removelast (localUndoStack c))
           (localRedoStack c ++ [lastOperation]) c,
         [emit_request_undo (roomId c) (userId c)
            (timestamp lastOperation)])
    | None => (c, [])
    end
  else (c, []).

Definition requestRedo (c : t) : t * list Outbound :=
  if socket c && isConnected c
  then
    match last (localRedoStack c) with
    | Some operation =>
        (withStacks (localUndoStack c ++ [operation])
           (removelast (localRedoStack c)) c,
         [emit_request_redo (roomId c) (userId c) (timestamp operation)])
    | None => (c, [])
    end
  else (c, []).


(** The client with another connection flag. *)
Definition withConnected (b : bool) (c : t) : t :=
  {| socket := socket c; roomId := roomId c; userId := userId c;
     userName := userName c; isConnected := b;
     onUsersUpdate := onUsersUpdate c; currentUsers := currentUsers c;
     localUndoStack := localUndoStack c;
     localRedoStack := localRedoStack c |}.


Definition on_disconnect (c : t) : t := withConnected false c.

(** [drawRemoteLine(x0, y0, x1, y1, color, width)], on the context of
    the canvas. *)
Definition drawRemoteLine (x0 y0 x1 y1 : Z) (color : string) (width : Z)
    (cv : CanvasDrawing.t) : CanvasDrawing.t :=
  CanvasDrawing.withCtx
    (CanvasDrawing.ctx cv ++
       [ beginPath;
         moveTo x0 y0;
         lineTo x1 y1;
         strokeStyle (if decide (color = "ERASER") then "#FFFFFF" else color);
         lineWidth width;
         lineCap "round";
         lineJoin "round";
         globalCompositeOperation
           (if decide (color = "ERASER")
            then "destination-out" else "source-over");
         stroke;
         globalCompositeOperation "source-over" ])
    cv.

(** The client with another user list. *)
Definition withUsers (us : list UserInfo) (c : t) : t :=
  {| socket := socket c; roomId := roomId c; userId := userId c;
     userName := userName c; isConnected := isConnected c;
     onUsersUpdate := onUsersUpdate c; currentUsers := us;
     localUndoStack := localUndoStack c;
     localRedoStack := localRedoStack c |}.

(** The listeners of [initWebSocket] for the server's messages, on the
    client and its canvas. The cursor layer and the users list are DOM
    and are left out; [user-left] stores the list whether or not the
    callback is set, the other listeners only when it is. *)
Definition on_message (m : Message) (c : t) (cv : CanvasDrawing.t)
    : t * CanvasDrawing.t :=
  match m with
  | DrawingHistory operations _ _ users =>
      (if onUsersUpdate c then withUsers users c else c,
       CanvasDrawing.redrawCanvas (Some operations) cv)
  | DrawingHistoryUndoRedo operations =>
      (c, CanvasDrawing.redrawCanvas (Some operations) cv)
  | DrawingHistoryCleared =>
      (c, CanvasDrawing.redrawCanvas (Some []) cv)
  | NewDrawOperation _ x0 y0 x1 y1 color width =>
      (c, drawRemoteLine x0 y0 x1 y1 color width cv)
  | UserCursors _ users =>
      (if onUsersUpdate c then withUsers users c else c, cv)
  | UserJoined _ _ _ users =>
      (if onUsersUpdate c then withUsers users c else c, cv)
  | UserLeft _ users => (withUsers users c, cv)
  end.

(** The event the server reads from an emitted message; [now] is the
    server's [Date.now()] for a draw. The server does not read
    [operationId]. *)
Definition to_event (o : Outbound) (now : Z) : Event :=
  match o with
  | emit_join_room r u n => JoinRoom r u n
  | emit_draw r u x0 y0 x1 y1 color width =>
      Draw r u x0 y0 x1 y1 color width now
  | emit_cursor_move r u x y => CursorMove r u x y
  | emit_request_undo r u _ => RequestUndo r u
  | emit_request_redo r u _ => RequestRedo r u
  | emit_clear_canvas r => ClearCanvas r
  end.

End WebSocketClient.

(** ** The page: pointer listeners of main.js and message delivery *)

Module App.

(** The canvas and the connection created by [initializeApp]. *)
Record t : Type := mk {
  canvasDrawing : CanvasDrawing.t;
  websocket : WebSocketClient.t
}.

(** The ["mousedown"] and ["touchstart"] listeners, at the canvas
    coordinates [getCanvasCoordinates] has computed. *)
Definition on_pointer_down (x y : Z) (a : t) : t :=
  mk (CanvasDrawing.startDrawing x y (canvasDrawing a)) (websocket a).

(** The ["mousemove"] and ["touchmove"] listeners: the cursor position
    is sent, then, while drawing, the segment is drawn and its data
    sent by the callback. [now] is the value of [Date.now()] in
    [sendDrawing]. *)
Definition on_pointer_move (x y : Z) (now : Z) (a : t)
    : t * list WebSocketClient.Outbound :=
  let '(ws1, out1) := WebSocketClient.sendCursorPosition x y (websocket a) in
  if CanvasDrawing.isDrawing (canvasDrawing a) then
    let '(cv1, d) := CanvasDrawing.draw x y true (canvasDrawing a) in
    match d with
    | Some drawData =>
        let '(ws2, out2) :=
          WebSocketClient.sendDrawing (data_x0 drawData) (data_y0 drawData)
            (data_x1 drawData) (data_y1 drawData) (data_color drawData)
            (data_width drawData) now ws1 in
        (mk cv1 ws2, out1 ++ out2)
    | None => (mk cv1 ws1, out1)
    end
  else (mk (canvasDrawing a) ws1, out1).

(** The ["mouseup"], ["mouseleave"] and ["touchend"] listeners. *)
Definition on_pointer_up (a : t) : t :=
  mk (CanvasDrawing.stopDrawing (canvasDrawing a)) (websocket a).

(** The server's messages as they reach the page, in order. *)
Definition receive_all (ms : list Message) (a : t) : t :=
  fold_left
    (fun acc m =>
       let '(ws, cv) :=
         WebSocketClient.on_message m (websocket acc) (canvasDrawing acc) in
       mk cv ws)
    ms a.

(** The messages emitted on the connection [sid], as the server handles
    them in order; [now] is the server's [Date.now()]. *)
Definition deliver (sid : string) (now : Z)
    (outs : list WebSocketClient.Outbound) (st : Server)
    : Server * list Emit :=
  run (map (fun o => (sid, WebSocketClient.to_event o now)) outs) st.

End App.

(** The broadcast of the [draw] handler for the operation it logs. *)
Definition broadcast_of (op : Operation) : Message :=
  NewDrawOperation (userId op) (x0 op) (y0 op) (x1 op) (y1 op) (color op)
    (width op).

(** An event is a [draw] for room [r]. *)
Definition is_draw_to (r : string) (ev : Event) : bool :=
  match ev with
  | Draw roomId _ _ _ _ _ _ _ _ => bool_decide (roomId = r)
  | _ => false
  end.

(** An event is an undo, a redo or a clear for room [r]. *)
Definition is_resync_of (r : string) (ev : Event) : bool :=
  match ev with
  | RequestUndo roomId _ | RequestRedo roomId _ | ClearCanvas roomId =>
      bool_decide (roomId = r)
  | _ => false
  end.

(** ** A session seen from one page *)

(** An operation without the time it was stamped with: the client and
    the server each call [Date.now()]. *)
Definition sans_timestamp (op : Operation) : Operation :=
  mkOperation (type op) (userId op) (x0 op) (y0 op) (x1 op) (y1 op)
    (color op) (width op) 0.

Module Session.

(** A step of the system: a call on the page's client, whose messages
    the server handles at once on the page's connection, or an event
    arriving on some connection. *)
Inductive Step : Type :=
  | Draws (x0 y0 x1 y1 : Z) (color : string) (width : Z)
      (now serverNow : Z)
  | Undoes
  | Redoes
  | MovesCursor (x y : Z)
  | Elsewhere (sid : string) (ev : Event).

Definition step (sid : string) (s : Step) (c : WebSocketClient.t)
    (st : Server) : WebSocketClient.t * Server :=
  match s with
  | Draws x0 y0 x1 y1 color width now serverNow =>
      let '(c1, outs) :=
        WebSocketClient.sendDrawing x0 y0 x1 y1 color width now c in
      (c1, fst (App.deliver sid serverNow outs st))
  | Undoes =>
      let '(c1, outs) := WebSocketClient.requestUndo c in
      (c1, fst (App.deliver sid 0 outs st))
  | Redoes =>
      let '(c1, outs) := WebSocketClient.requestRedo c in
      (c1, fst (App.deliver sid 0 outs st))
  | MovesCursor x y =>
      let '(c1, outs) := WebSocketClient.sendCursorPosition x y c in
      (c1, fst (App.deliver sid 0 outs st))
  | Elsewhere sid' ev => (c, fst (handle sid' ev st))
  end.

Fixpoint steps (sid : string) (ss : list Step) (c : WebSocketClient.t)
    (st : Server) : WebSocketClient.t * Server :=
  match ss with
  | [] => (c, st)
  | s :: ss' => let '(c1, st1) := step sid s c st in steps sid ss' c1 st1
  end.

(** The events of other connections that leave the user [u] of room [r]
    alone: no connection closes, nobody clears room [r], nobody draws,
    undoes or redoes in room [r] under the userId [u]. *)
Definition leaves_alone (u r : string) (s : Step) : bool :=
  match s with
  | Elsewhere _ ev =>
      match ev with
      | Disconnect => false
      | ClearCanvas r' => negb (bool_decide (r' = r))
      | Draw r' u' _ _ _ _ _ _ _
      | RequestUndo r' u'
      | RequestRedo r' u' => negb (bool_decide (r' = r ∧ u' = u))
      | JoinRoom _ _ _ | CursorMove _ _ _ _ => true
      end
  | _ => true
  end.

(** The local stacks [undo] and [redo] of the user [u] agree with a
    log, timestamps apart: [undo] with the user's operations in
    [history], [redo] with the user's redo stack; the redo stacks of the
    log hold their owners' operations. *)
Definition tracks (u : string) (undo redo : list Operation)
    (log : DrawingState.t) : Prop :=
  LogViews.own_stacks log ∧
  sans_timestamp <$> undo
  = sans_timestamp <$> LogViews.own u (DrawingState.history log) ∧
  sans_timestamp <$> redo
  = sans_timestamp <$> DrawingState.redoStackOf u log.

(** The identity of a client: what its messages are stamped with. *)
Definition same_client (c c' : WebSocketClient.t) : Prop :=
  WebSocketClient.socket c' = WebSocketClient.socket c ∧
  WebSocketClient.isConnected c' = WebSocketClient.isConnected c ∧
  WebSocketClient.roomId c' = WebSocketClient.roomId c ∧
  WebSocketClient.userId c' = WebSocketClient.userId c.

(** The client's room exists and its log is tracked by the client's
    local stacks. *)
Definition mirrors (c : WebSocketClient.t) (st : Server) : Prop :=
  ∃ room,
    JsMap.get (WebSocketClient.roomId c) (rooms st) = Some room ∧
    tracks (WebSocketClient.userId c) (WebSocketClient.localUndoStack c)
      (WebSocketClient.localRedoStack c) (Room.drawingState room).

End Session.

(** ** A sample canvas and client *)

Module ClientSamples.

(** A reader of colors for the examples: a ["#"] followed by six
    hexadecimal digits. *)
Definition is_hex_digit (a : Ascii.ascii) : bool :=
  let n := Ascii.nat_of_ascii a in
  ((48 <=? n) && (n <=? 57) || (65 <=? n) && (n <=? 70)
   || (97 <=? n) && (n <=? 102))%nat.

Definition hex_color (s : string) : bool :=
  match s with
  | String a rest =>
      bool_decide (a = Ascii.ascii_of_nat 35)
      && (String.length rest =? 6)%nat
      && forallb is_hex_digit (list_ascii_of_string rest)
  | _ => false
  end.

(** A pointer is down at (10, 10) with a red brush. *)
Definition red_stroke : CanvasDrawing.t :=
  CanvasDrawing.startDrawing 10 10
    (CanvasDrawing.setColor "#FF0000" (CanvasDrawing.new 800 600 "crosshair")).

(** Alice's client, connected, in room r, with one stroke drawn and one
    undone. *)
Definition alice_client : WebSocketClient.t :=
  WebSocketClient.mk true "r" "alice" "Alice" true true []
    [mkOperation "draw" "alice" 0 0 5 5 "#FF0000" 3 2000]
    [mkOperation "draw" "alice" 5 5 9 9 "#FF0000" 3 2001].


(** Alice's page: the pointer is down, the client is connected. *)
Definition alice_page : App.t := App.mk red_stroke alice_client.

(** A connected client of room r that has drawn nothing yet. *)
Definition new_alice : WebSocketClient.t :=
  WebSocketClient.mk true "r" "alice" "Alice" true true [] [] [].

(** Alice draws twice and undoes once while Bob joins the room, draws
    and undoes. *)
Definition shared_session : list Session.Step :=
  [Session.Draws 0 0 5 5 "#FF0000" 3 2000 1000;
   Session.Elsewhere "s2" (JoinRoom "r" "bob" "Bob");
   Session.Elsewhere "s2" (Draw "r" "bob" 1 1 2 2 "#0000FF" 2 1001);
   Session.Draws 5 5 9 9 "#FF0000" 3 2001 1002;
   Session.Elsewhere "s2" (RequestUndo "r" "bob");
   Session.Undoes;
   Session.MovesCursor 9 9].

(** Two draws addressed to room r. *)
Definition two_draws : list (string * Event) :=
  [("s1", Draw "r" "alice" 0 0 5 5 "#FF0000" 3 1000);
   ("s1", Draw "r" "alice" 5 5 9 9 "ERASER" 8 1001)].

End ClientSamples.

(** * Properties of the operation log *)

Module DrawingStateFacts.
Import DrawingState.

Lemma scan_Some h u n i :
  scan h u n = Some i →
  (i < n)%nat ∧
  (∃ op, h !! i = Some op ∧ userId op = u) ∧
  ∀ j o, (i < j < n)%nat → h !! j = Some o → userId o ≠ u.
Proof.
  induction n as [|n IH]; simpl; [discriminate|].
  destruct (h !! n) as [op|] eqn:Hn.
  - destruct (decide (userId op = u)) as [Hu|Hu].
    + intros [= <-]. split; [lia|]. split; [eauto|].
      intros j o Hj. lia.
    + intros Hs. destruct (IH Hs) as (Hlt & Hop & Hafter).
      split; [lia|]. split; [done|].
      intros j o Hj Hjo. destruct (decide (j = n)) as [->|Hne].
      * congruence.
      * apply (Hafter j o); [lia|done].
  - intros Hs. destruct (IH Hs) as (Hlt & Hop & Hafter).
    split; [lia|]. split; [done|].
    intros j o Hj Hjo. destruct (decide (j = n)) as [->|Hne].
    + congruence.
    + apply (Hafter j o); [lia|done].
Qed.

Lemma scan_None h u n :
  scan h u n = None →
  ∀ j o, (j < n)%nat → h !! j = Some o → userId o ≠ u.
Proof.
  induction n as [|n IH]; simpl; [intros _ j o Hj; lia|].
  destruct (h !! n) as [op|] eqn:Hn.
  - destruct (decide (userId op = u)) as [Hu|Hu]; [discriminate|].
    intros Hs j o Hj Hjo. destruct (decide (j = n)) as [->|Hne].
    + congruence.
    + apply (IH Hs j o); [lia|done].
  - intros Hs j o Hj Hjo. destruct (decide (j = n)) as [->|Hne].
    + congruence.
    + apply (IH Hs j o); [lia|done].
Qed.

(** The two-step push of [undoUserOperation] ([has]/[set] then
    [get(...).push]) stores the old stack, read as empty when absent,
    with the operation at its end. *)
Lemma push_redo (stacks : gmap string (list Operation)) u op :
  alter (fun stk => stk ++ [op]) u
    (if decide (is_Some (stacks !! u)) then stacks else <[u := []]> stacks)
  = <[u := default [] (stacks !! u) ++ [op]]> stacks.
Proof.
  apply map_eq. intros k. destruct (decide (k = u)) as [->|Hne].
  - rewrite lookup_alter_eq, lookup_insert_eq.
    destruct (decide (is_Some (stacks !! u))) as [[stk Hstk]|Hno].
    + by rewrite Hstk.
    + rewrite lookup_insert_eq. simpl.
      destruct (stacks !! u) eqn:E; [exfalso; eauto|done].
  - rewrite lookup_alter_ne, lookup_insert_ne by done.
    destruct (decide (is_Some (stacks !! u))); [done|].
    by rewrite lookup_insert_ne.
Qed.

(** What [undoUserOperation] does when the scan stops at an index. *)
Lemma undo_found s u :
  (∃ op, op ∈ history s ∧ userId op = u) →
  ∃ pre op post,
    history s = pre ++ op :: post ∧
    userId op = u ∧
    Forall (fun o => userId o ≠ u) post ∧
    undoUserOperation u s =
      ({| history := pre ++ post;
          userRedoStacks :=
            <[u := redoStackOf u s ++ [op]]> (userRedoStacks s) |}, true).
Proof.
  intros (op0 & Hin & Hu0).
  unfold undoUserOperation, splice1.
  destruct (scan (history s) u (length (history s))) as [i|] eqn:Hscan.
  - destruct (scan_Some _ _ _ _ Hscan) as (Hlt & (op & Hop & Hu) & Hafter).
    exists (take i (history s)), op, (drop (S i) (history s)).
    rewrite Hop. split; [by rewrite take_drop_middle|].
    split; [done|]. split.
    + apply Forall_lookup. intros j o Hj.
      rewrite lookup_drop in Hj.
      apply (Hafter (S i + j)%nat o); [|done].
      apply lookup_lt_Some in Hj. lia.
    + cbv zeta. by rewrite push_redo.
  - exfalso. apply list_elem_of_lookup in Hin as [j Hj].
    apply (scan_None _ _ _ Hscan j op0); [|done..].
    by apply lookup_lt_Some in Hj.
Qed.

Lemma undo_not_found s u :
  (∀ op, op ∈ history s → userId op ≠ u) →
  undoUserOperation u s = (s, false).
Proof.
  intros Hnone. unfold undoUserOperation.
  destruct (scan (history s) u (length (history s))) as [i|] eqn:Hscan;
    [|done].
  destruct (scan_Some _ _ _ _ Hscan) as (_ & (op & Hop & Hu) & _).
  exfalso. apply (Hnone op); [|done].
  apply list_elem_of_lookup. eauto.
Qed.

Lemma last_snoc_inv (stk : list Operation) op :
  last stk = Some op → stk = removelast stk ++ [op].
Proof.
  intros Hl. destruct stk as [|o stk] using rev_ind; [done|].
  rewrite last_snoc in Hl. injection Hl as ->.
  by rewrite removelast_last.
Qed.

Lemma redo_nonempty s u stk op :
  userRedoStacks s !! u = Some (stk ++ [op]) →
  redoUserOperation u s =
    ({| history := history s ++ [op];
        userRedoStacks := <[u := stk]> (userRedoStacks s) |}, true).
Proof.
  intros Hs. unfold redoUserOperation. rewrite Hs, last_snoc.
  by rewrite removelast_last.
Qed.

Lemma redo_nothing s u :
  redoStackOf u s = [] → redoUserOperation u s = (s, false).
Proof.
  unfold redoStackOf, redoUserOperation.
  destruct (userRedoStacks s !! u) as [stk|]; simpl; [|done].
  by intros ->.
Qed.

End DrawingStateFacts.

(** * The replay invariant *)

Module ReplayFacts.
Import DrawingState DrawingStateFacts Replay.

Lemma inv_new : inv new.
Proof.
  split; [constructor|]. intros u stk Hs.
  unfold new in Hs. simpl in Hs. by rewrite lookup_empty in Hs.
Qed.

Lemma inv_clear s : inv (clear s).
Proof. apply inv_new. Qed.

Lemma inv_append s op :
  inv s → op ∉ history s → inv (addOperation op s).
Proof.
  intros [Hnd Hst] Hfresh. split; simpl.
  - apply NoDup_app. split; [done|]. split.
    + intros o Ho Ho'. apply list_elem_of_singleton in Ho' as ->. done.
    + apply NoDup_singleton.
  - intros u stk Hu.
    destruct (decide (u = userId op)) as [->|Hne].
    { by rewrite lookup_delete_eq in Hu. }
    rewrite lookup_delete_ne in Hu by done.
    destruct (Hst u stk Hu) as [Hnd' Hel]. split; [done|].
    intros o Ho. destruct (Hel o Ho) as [Hou Hoh]. split; [done|].
    rewrite elem_of_app, list_elem_of_singleton.
    intros [?| ->]; congruence.
Qed.

Lemma inv_undo s u : inv s → inv (fst (undoUserOperation u s)).
Proof.
  intros [Hnd Hst].
  destruct (decide (Exists (fun o => userId o = u) (history s))) as [Hex|Hno].
  - apply Exists_exists in Hex as (op0 & Hin0 & Hu0).
    destruct (undo_found s u) as (pre & op & post & Hh & Hu & _ & ->);
      [eauto|].
    simpl. rewrite Hh in Hnd.
    apply NoDup_app in Hnd as (Hpre & Hsep & Hpost).
    apply NoDup_cons in Hpost as [Hop Hpost].
    assert (Hop_pre : op ∉ pre).
    { intros Hin. apply (Hsep op Hin). left. }
    assert (Hsub : ∀ o, o ∈ pre ++ post → o ∈ history s).
    { intros o. rewrite Hh, !elem_of_app, elem_of_cons. tauto. }
    split.
    + apply NoDup_app. split; [done|]. split; [|done].
      intros o Ho Ho'. apply (Hsep o Ho). by right.
    + simpl. intros v stk Hv.
      destruct (decide (v = u)) as [->|Hne].
      * rewrite lookup_insert_eq in Hv. injection Hv as <-.
        unfold redoStackOf.
        destruct (userRedoStacks s !! u) as [old|] eqn:Hold; simpl.
        -- destruct (Hst u old Hold) as [Hndold Hel]. split.
           ++ apply NoDup_app. split; [done|]. split; [|apply NoDup_singleton].
              intros o Ho Ho'. apply list_elem_of_singleton in Ho' as ->.
              destruct (Hel op Ho) as [_ Hnot]. apply Hnot.
              rewrite Hh, elem_of_app, elem_of_cons. tauto.
           ++ intros o. rewrite elem_of_app, list_elem_of_singleton.
              intros [Ho| ->].
              ** destruct (Hel o Ho) as [? Hnot]. split; [done|]. auto.
              ** split; [done|]. rewrite elem_of_app. tauto.
        -- split; [apply NoDup_singleton|].
           intros o Ho. apply list_elem_of_singleton in Ho as ->.
           split; [done|]. rewrite elem_of_app. tauto.
      * rewrite lookup_insert_ne in Hv by done.
        destruct (Hst v stk Hv) as [Hnd' Hel]. split; [done|].
        intros o Ho. destruct (Hel o Ho) as [? Hnot]. split; [done|]. auto.
  - rewrite undo_not_found; [done|].
    intros op Hin Hu. apply Hno, Exists_exists. eauto.
Qed.

Lemma inv_redo s u : inv s → inv (fst (redoUserOperation u s)).
Proof.
  intros [Hnd Hst]. unfold redoUserOperation.
  destruct (userRedoStacks s !! u) as [stk|] eqn:Hs; [|done].
  destruct (last stk) as [op|] eqn:Hl; [|done].
  apply last_snoc_inv in Hl. simpl.
  remember (removelast stk) as stk' eqn:E. clear E. subst stk.
  destruct (Hst u _ Hs) as [Hndstk Hel].
  apply NoDup_app in Hndstk as (Hnd' & Hsep & _).
  assert (Hop : userId op = u ∧ op ∉ history s).
  { apply Hel. rewrite elem_of_app, list_elem_of_singleton. tauto. }
  destruct Hop as [Hopu Hoph].
  split.
  - apply NoDup_app. split; [done|]. split; [|apply NoDup_singleton].
    intros o Ho Ho'. apply list_elem_of_singleton in Ho' as ->. done.
  - simpl. intros v stkv Hv. destruct (decide (v = u)) as [->|Hne].
    + rewrite lookup_insert_eq in Hv. injection Hv as <-. split; [done|].
      intros o Ho. destruct (Hel o) as [? Hnot].
      { rewrite elem_of_app. tauto. }
      split; [done|]. rewrite elem_of_app, list_elem_of_singleton.
      intros [?| ->]; [done|]. apply (Hsep op Ho). left.
    + rewrite lookup_insert_ne in Hv by done.
      destruct (Hst v stkv Hv) as [? Hel']. split; [done|].
      intros o Ho. destruct (Hel' o Ho) as [? Hnot]. split; [done|].
      rewrite elem_of_app, list_elem_of_singleton.
      intros [?| ->]; [done|]. congruence.
Qed.

Lemma fresh_not_in_history op s : op ∉ all_ops s → op ∉ history s.
Proof. unfold all_ops. rewrite elem_of_app. tauto. Qed.

Lemma inv_exec cs : ∀ s,
  inv s → fresh_appends cs s = true → inv (exec cs s).
Proof.
  induction cs as [|c cs IH]; intros s Hinv Hfresh; [done|].
  simpl in Hfresh. apply andb_prop in Hfresh as [Hc Hrest].
  simpl. apply IH; [|done].
  destruct c as [op|u|u|]; simpl.
  - apply inv_append; [done|]. apply fresh_not_in_history.
    by apply bool_decide_eq_true in Hc.
  - by apply inv_undo.
  - by apply inv_redo.
  - apply inv_clear.
Qed.

End ReplayFacts.

(** * Facts on ordered maps *)

Module JsMapFacts.
Section Ordered.
Context {V : Type}.
Implicit Types (m : list (string * V)) (k : string) (v : V).

Lemma get_set_eq k v m : JsMap.get k (JsMap.set k v m) = Some v.
Proof.
  induction m as [|[k' v'] m IH]; simpl.
  - by rewrite decide_True.
  - destruct (decide (k' = k)) as [->|Hne]; simpl.
    + by rewrite decide_True.
    + by rewrite decide_False.
Qed.

Lemma get_set_ne k k' v m :
  k ≠ k' → JsMap.get k' (JsMap.set k v m) = JsMap.get k' m.
Proof.
  intros Hne. induction m as [|[k0 v0] m IH]; simpl.
  - by rewrite decide_False.
  - destruct (decide (k0 = k)) as [->|Hne0]; simpl.
    + by rewrite !decide_False.
    + by rewrite IH.
Qed.

Lemma has_true k m : JsMap.has k m = true ↔ is_Some (JsMap.get k m).
Proof.
  unfold JsMap.has. destruct (JsMap.get k m); split; intros H; try done.
Qed.

Lemma has_false k m : JsMap.has k m = false ↔ JsMap.get k m = None.
Proof. unfold JsMap.has. by destruct (JsMap.get k m). Qed.

Lemma has_set_mono k k' v m :
  JsMap.has k' m = true → JsMap.has k' (JsMap.set k v m) = true.
Proof.
  rewrite !has_true. intros Hs. destruct (decide (k = k')) as [->|Hne].
  - rewrite get_set_eq. eauto.
  - by rewrite get_set_ne.
Qed.

Lemma get_None_keys k m : JsMap.get k m = None ↔ k ∉ JsMap.keys m.
Proof.
  induction m as [|[k' v'] m IH]; simpl.
  - split; [intros _; apply not_elem_of_nil | done].
  - rewrite not_elem_of_cons. destruct (decide (k' = k)) as [->|Hne].
    + split; [done | intros [? _]; done].
    + rewrite IH. split; [intros ?; split; [congruence | done] | tauto].
Qed.

Lemma keys_set k v m :
  JsMap.keys (JsMap.set k v m) =
  if JsMap.has k m then JsMap.keys m else JsMap.keys m ++ [k].
Proof.
  unfold JsMap.has. induction m as [|[k' v'] m IH]; simpl; [done|].
  destruct (decide (k' = k)) as [->|Hne]; simpl; [done|].
  rewrite IH. by destruct (JsMap.get k m).
Qed.

Lemma size_set k v m :
  JsMap.size (JsMap.set k v m) =
  if JsMap.has k m then JsMap.size m else S (JsMap.size m).
Proof.
  unfold JsMap.size. rewrite <- !(length_fmap fst).
  change (fst <$> JsMap.set k v m) with (JsMap.keys (JsMap.set k v m)).
  rewrite keys_set. destruct (JsMap.has k m); [done|].
  rewrite length_app. simpl. unfold JsMap.keys. rewrite length_map, length_fmap. lia.
Qed.

Lemma NoDup_keys_set k v m :
  NoDup (JsMap.keys m) → NoDup (JsMap.keys (JsMap.set k v m)).
Proof.
  intros Hnd. rewrite keys_set. destruct (JsMap.has k m) eqn:Hh; [done|].
  apply NoDup_app. split; [done|]. split; [|apply NoDup_singleton].
  intros x Hx Hx'. apply list_elem_of_singleton in Hx' as ->.
  apply has_false, get_None_keys in Hh. done.
Qed.

End Ordered.
End JsMapFacts.

(** * Facts on the handlers *)

Module ServerFacts.
Import JsMapFacts.

(** The registry after [join-room]: the addressed room, created if it
    was absent, with the user added. *)
Lemma join_room_rooms sid roomId userId userName st :
  rooms (fst (on_join_room sid roomId userId userName st)) =
  JsMap.set roomId
    (Room.addUser userId sid userName
       (default (Room.new roomId) (JsMap.get roomId (rooms st))))
    (if JsMap.has roomId (rooms st) then rooms st
     else JsMap.set roomId (Room.new roomId) (rooms st)).
Proof.
  unfold on_join_room. destruct (JsMap.has roomId (rooms st)) eqn:Hh.
  - apply has_true in Hh as [room0 Hroom]. by rewrite Hroom.
  - rewrite get_set_eq. apply has_false in Hh. by rewrite Hh.
Qed.

Lemma join_room_colors sid roomId userId userName st :
  userColors (fst (on_join_room sid roomId userId userName st)) =
  <[userId :=
      nth (JsMap.size
             (Room.users
                (Room.addUser userId sid userName
                   (default (Room.new roomId)
                      (JsMap.get roomId (rooms st)))))
           mod length colors)%nat colors ""]> (userColors st).
Proof.
  unfold on_join_room. destruct (JsMap.has roomId (rooms st)) eqn:Hh.
  - apply has_true in Hh as [room0 Hroom]. by rewrite Hroom.
  - rewrite get_set_eq. apply has_false in Hh. by rewrite Hh.
Qed.

Lemma join_room_get sid roomId userId userName st :
  JsMap.get roomId (rooms (fst (on_join_room sid roomId userId userName st)))
  = Some (Room.addUser userId sid userName
            (default (Room.new roomId) (JsMap.get roomId (rooms st)))).
Proof. by rewrite join_room_rooms, get_set_eq. Qed.

Lemma join_room_get_other sid roomA roomB userId userName st :
  roomA ≠ roomB →
  JsMap.get roomA (rooms (fst (on_join_room sid roomB userId userName st)))
  = JsMap.get roomA (rooms st).
Proof.
  intros Hne. rewrite join_room_rooms, get_set_ne by done.
  destruct (JsMap.has roomB (rooms st)); [done|]. by rewrite get_set_ne.
Qed.

Lemma palette_lookup n :
  colors !! (n mod length colors)%nat
  = Some (nth (n mod length colors)%nat colors "").
Proof.
  assert (Hlt : (n mod length colors < length colors)%nat).
  { apply Nat.mod_upper_bound. discriminate. }
  destruct (lookup_lt_is_Some_2 colors _ Hlt) as [c Hc].
  by rewrite (nth_lookup_Some _ _ "" _ Hc).
Qed.

(** A handler that rewrites the addressed room in place. *)
Lemma get_update_room (f : Room.t → Room.t) roomId roomA (rs : JsMap.t Room.t) :
  JsMap.get roomA
    (match JsMap.get roomId rs with
     | Some room => JsMap.set roomId (f room) rs
     | None => rs
     end)
  = if decide (roomA = roomId) then f <$> JsMap.get roomA rs
    else JsMap.get roomA rs.
Proof.
  destruct (decide (roomA = roomId)) as [->|Hne].
  - destruct (JsMap.get roomId rs) as [room|] eqn:Hr; simpl.
    + by rewrite get_set_eq.
    + done.
  - destruct (JsMap.get roomId rs) as [room|] eqn:Hr; [|done].
    by rewrite get_set_ne.
Qed.

Lemma draw_unknown_room roomId userId x0 y0 x1 y1 color width now st :
  JsMap.get roomId (rooms st) = None →
  on_draw roomId userId x0 y0 x1 y1 color width now st =
  (st, [mkEmit (ToRoom roomId)
          (NewDrawOperation userId x0 y0 x1 y1 color width)]).
Proof. intros Hr. unfold on_draw. rewrite Hr. by destruct st. Qed.

Lemma undo_get roomId userId st room :
  JsMap.get roomId (rooms st) = Some room →
  JsMap.get roomId (rooms (fst (on_request_undo roomId userId st)))
  = Some (Room.withDrawingState
            (fst (DrawingState.undoUserOperation userId
                    (Room.drawingState room))) room).
Proof.
  intros Hr. unfold on_request_undo. rewrite Hr. simpl. apply get_set_eq.
Qed.

Lemma redo_get roomId userId st room :
  JsMap.get roomId (rooms st) = Some room →
  JsMap.get roomId (rooms (fst (on_request_redo roomId userId st)))
  = Some (Room.withDrawingState
            (fst (DrawingState.redoUserOperation userId
                    (Room.drawingState room))) room).
Proof.
  intros Hr. unfold on_request_redo. rewrite Hr. simpl. apply get_set_eq.
Qed.

Lemma undo_unchanged_iff u (s : DrawingState.t) :
  fst (DrawingState.undoUserOperation u s) = s ↔
  ∀ op, op ∈ DrawingState.history s → userId op ≠ u.
Proof.
  split.
  - intros Heq op Hin Hu.
    destruct (DrawingStateFacts.undo_found s u) as
      (pre & o & post & Hh & _ & _ & Hundo); [eauto|].
    rewrite Hundo in Heq. simpl in Heq.
    apply (f_equal (fun d => length (DrawingState.history d))) in Heq.
    simpl in Heq. rewrite Hh, !length_app in Heq. simpl in Heq. lia.
  - intros Hnone. by rewrite DrawingStateFacts.undo_not_found.
Qed.

Lemma redo_unchanged_iff u (s : DrawingState.t) :
  fst (DrawingState.redoUserOperation u s) = s ↔
  DrawingState.redoStackOf u s = [].
Proof.
  split.
  - intros Heq. unfold DrawingState.redoStackOf.
    destruct (DrawingState.userRedoStacks s !! u) as [stk|] eqn:Hs; [|done].
    simpl. destruct stk as [|o stk _] using rev_ind; [done|].
    rewrite (DrawingStateFacts.redo_nonempty s u stk o Hs) in Heq.
    apply (f_equal (fun d => length (DrawingState.history d))) in Heq.
    simpl in Heq. rewrite length_app in Heq. simpl in Heq. lia.
  - intros Hempty. by rewrite DrawingStateFacts.redo_nothing.
Qed.

(** The rooms kept by the disconnect loop are rooms of the registry, in
    their order. *)
Lemma disconnect_rooms_keys sid todo : ∀ uc,
  JsMap.keys (disconnect_rooms sid todo uc).1.1 `sublist_of` JsMap.keys todo.
Proof.
  induction todo as [|[roomId room0] rest IH]; intros uc; simpl; [done|].
  destruct (find _ (Room.users room0)) as [userEntry|].
  - specialize (IH (delete (fst userEntry) uc)).
    destruct (disconnect_rooms sid rest (delete (fst userEntry) uc))
      as [[rest' uc2] outs]. simpl in *.
    destruct (decide _); simpl.
    + by apply sublist_cons.
    + by apply sublist_skip.
  - specialize (IH uc).
    destruct (disconnect_rooms sid rest uc) as [[rest' uc2] outs]. simpl in *.
    by apply sublist_skip.
Qed.

(** What the disconnect loop leaves of one room of a well-formed
    registry. *)
Lemma disconnect_rooms_get sid roomA room todo : ∀ uc,
  NoDup (JsMap.keys todo) →
  JsMap.get roomA todo = Some room →
  JsMap.get roomA (disconnect_rooms sid todo uc).1.1 =
  match find (fun e => bool_decide (socketId (snd e) = sid))
             (Room.users room) with
  | Some userEntry =>
      if decide (JsMap.size (Room.users (Room.removeUser (fst userEntry) room))
                 = 0%nat)
      then None else Some (Room.removeUser (fst userEntry) room)
  | None => Some room
  end.
Proof.
  induction todo as [|[roomId room0] rest IH]; intros uc Hnd Hget;
    [done|].
  simpl in Hnd. apply NoDup_cons in Hnd as [Hfresh Hnd].
  simpl in Hget. simpl.
  destruct (decide (roomId = roomA)) as [->|Hne].
  - injection Hget as ->.
    destruct (find _ (Room.users room)) as [userEntry|].
    + pose proof (disconnect_rooms_keys sid rest (delete (fst userEntry) uc))
        as Hsub.
      destruct (disconnect_rooms sid rest (delete (fst userEntry) uc))
        as [[rest' uc2] outs]. simpl in *.
      destruct (decide _); simpl.
      * apply get_None_keys. intros Hin. apply Hfresh.
        by eapply elem_of_sublist.
      * by rewrite decide_True.
    + destruct (disconnect_rooms sid rest uc) as [[rest' uc2] outs]. simpl.
      by rewrite decide_True.
  - destruct (find _ (Room.users room0)) as [userEntry|].
    + specialize (IH (delete (fst userEntry) uc) Hnd Hget).
      destruct (disconnect_rooms sid rest (delete (fst userEntry) uc))
        as [[rest' uc2] outs]. simpl in *.
      destruct (decide _); simpl; [done|]. by rewrite decide_False.
    + specialize (IH uc Hnd Hget).
      destruct (disconnect_rooms sid rest uc) as [[rest' uc2] outs].
      simpl in *. by rewrite decide_False.
Qed.

Lemma on_disconnect_rooms sid st :
  rooms (fst (on_disconnect sid st))
  = (disconnect_rooms sid (rooms st) (userColors st)).1.1.
Proof.
  unfold on_disconnect.
  by destruct (disconnect_rooms sid (rooms st) (userColors st))
    as [[rooms1 uc1] outs].
Qed.

Lemma wf_initial : wf initial.
Proof. constructor. Qed.

Lemma wf_update_room (f : Room.t → Room.t) roomId (rs : JsMap.t Room.t) :
  NoDup (JsMap.keys rs) →
  NoDup (JsMap.keys
           (match JsMap.get roomId rs with
            | Some room => JsMap.set roomId (f room) rs
            | None => rs
            end)).
Proof.
  intros Hnd. destruct (JsMap.get roomId rs); [|done].
  by apply NoDup_keys_set.
Qed.

Lemma wf_handle sid ev st : wf st → wf (fst (handle sid ev st)).
Proof.
  unfold wf. intros Hwf. destruct ev; simpl.
  - rewrite join_room_rooms. apply NoDup_keys_set.
    destruct (JsMap.has roomId (rooms st)); [done|].
    by apply NoDup_keys_set.
  - unfold on_draw. simpl.
    by apply (wf_update_room (fun room => Room.withDrawingState _ room)).
  - unfold on_cursor_move.
    destruct (JsMap.get roomId (rooms st)); [|done].
    simpl. by apply NoDup_keys_set.
  - unfold on_request_undo.
    destruct (JsMap.get roomId (rooms st)); [|done].
    simpl. by apply NoDup_keys_set.
  - unfold on_request_redo.
    destruct (JsMap.get roomId (rooms st)); [|done].
    simpl. by apply NoDup_keys_set.
  - unfold on_clear_canvas.
    destruct (JsMap.get roomId (rooms st)); [|done].
    simpl. by apply NoDup_keys_set.
  - rewrite on_disconnect_rooms.
    eapply sublist_NoDup; [| apply disconnect_rooms_keys]. done.
Qed.

Lemma wf_run evs : ∀ st, wf st → wf (fst (run evs st)).
Proof.
  induction evs as [|[sid ev] evs IH]; intros st Hwf; [done|].
  simpl. pose proof (wf_handle sid ev st Hwf) as H1.
  destruct (handle sid ev st) as [st1 out1].
  specialize (IH st1 H1).
  by destruct (run evs st1) as [st2 out2].
Qed.

Lemma keeps_members_refl room : keeps_members room room.
Proof. by split. Qed.

Lemma keeps_members_log d room :
  keeps_members room (Room.withDrawingState d room).
Proof. by split. Qed.

Lemma keeps_members_addUser u sid n room :
  keeps_members room (Room.addUser u sid n room).
Proof. split; simpl; [intros v; apply has_set_mono | done]. Qed.

Lemma keeps_members_updateCursor u x y room :
  keeps_members room (Room.updateCursor u x y room).
Proof. split; simpl; [done | intros v; apply has_set_mono]. Qed.

Create HintDb members.

#[local] Hint Resolve keeps_members_refl keeps_members_log
  keeps_members_addUser keeps_members_updateCursor : members.

(** The rewriting handlers share one shape: look the room up, store an
    updated room under the same id. *)
Ltac room_cases roomA roomId Hroom :=
  destruct (decide (roomA = roomId)) as [<-|?];
  [ rewrite Hroom; simpl; rewrite get_set_eq; eauto with members
  | destruct (JsMap.get roomId _); simpl;
    [ rewrite get_set_ne by done | ]; eauto with members ].

Lemma handle_keeps_members sid ev st roomA room :
  ev ≠ Disconnect →
  JsMap.get roomA (rooms st) = Some room →
  ∃ room', JsMap.get roomA (rooms (fst (handle sid ev st))) = Some room' ∧
           keeps_members room room'.
Proof.
  intros Hev Hroom.
  destruct ev as [rid uid nm | rid uid a0 b0 a1 b1 c w t | rid uid a b
                 | rid uid | rid uid | rid |]; simpl; [| | | | | |done].
  - destruct (decide (roomA = rid)) as [<-|Hne].
    + rewrite join_room_get, Hroom. simpl. eauto with members.
    + rewrite join_room_get_other by done. eauto with members.
  - unfold on_draw. simpl.
    rewrite (get_update_room
               (fun r => Room.withDrawingState
                           (DrawingState.addOperation
                              (mkOperation "draw" uid a0 b0 a1 b1 c w t)
                              (Room.drawingState r)) r)).
    destruct (decide (roomA = rid)); rewrite Hroom; simpl;
      eauto with members.
  - unfold on_cursor_move. room_cases roomA rid Hroom.
  - unfold on_request_undo. room_cases roomA rid Hroom.
  - unfold on_request_redo. room_cases roomA rid Hroom.
  - unfold on_clear_canvas. room_cases roomA rid Hroom.
Qed.

Lemma size_0_nil {V} (m : JsMap.t V) : JsMap.size m = 0%nat → m = [].
Proof. by destruct m. Qed.

Lemma disconnect_destroys_only_emptied sid st roomA room :
  wf st →
  JsMap.get roomA (rooms st) = Some room →
  JsMap.get roomA (rooms (fst (handle sid Disconnect st))) = None →
  ∃ e, find (fun e => bool_decide (socketId (snd e) = sid))
            (Room.users room) = Some e ∧
       Room.users (Room.removeUser (fst e) room) = [].
Proof.
  intros Hwf Hroom. simpl. rewrite on_disconnect_rooms.
  rewrite (disconnect_rooms_get sid roomA room _ _ Hwf Hroom).
  destruct (find _ (Room.users room)) as [e|]; [|done].
  destruct (decide _) as [Hz|]; [|done].
  intros _. exists e. split; [done|]. by apply size_0_nil.
Qed.

End ServerFacts.

(** * The claims on the operation log *)

Module LogClaims.
Import DrawingState DrawingStateFacts Sample.

(** C1. Whenever [history] holds an operation of user [u],
    [undoUserOperation u] removes the one at the greatest index (no
    operation of [u] follows it), keeps all other operations in their
    order, pushes the removed operation onto [u]'s redo stack and returns
    [true]. *)
Theorem C1_undo_removes_last_own (s : t) (u : string) :
  (∃ op, op ∈ history s ∧ userId op = u) →
  ∃ pre op post,
    history s = pre ++ op :: post ∧
    userId op = u ∧
    Forall (fun o => userId o ≠ u) post ∧
    history (fst (undoUserOperation u s)) = pre ++ post ∧
    redoStackOf u (fst (undoUserOperation u s)) = redoStackOf u s ++ [op] ∧
    (∀ v, v ≠ u →
       userRedoStacks (fst (undoUserOperation u s)) !! v
       = userRedoStacks s !! v) ∧
    snd (undoUserOperation u s) = true.
Proof.
  intros Hex.
  destruct (undo_found s u Hex) as (pre & op & post & Hh & Hu & Hpost & ->).
  exists pre, op, post. simpl. repeat split; try done.
  - unfold redoStackOf at 1. simpl. by rewrite lookup_insert_eq.
  - intros v Hv. by rewrite lookup_insert_ne.
Qed.

(** C2. With a non-empty redo stack, [redoUserOperation u] takes its last
    element, appends it at the tail of [history], leaves the rest of
    [history] and the other stacks as they were and returns [true]; with
    an empty or absent stack it returns [false] and changes nothing. *)
Theorem C2_redo_restores_to_tail (s : t) (u : string) :
  (∀ stk op,
     userRedoStacks s !! u = Some (stk ++ [op]) →
     history (fst (redoUserOperation u s)) = history s ++ [op] ∧
     userRedoStacks (fst (redoUserOperation u s)) !! u = Some stk ∧
     (∀ v, v ≠ u →
        userRedoStacks (fst (redoUserOperation u s)) !! v
        = userRedoStacks s !! v) ∧
     snd (redoUserOperation u s) = true) ∧
  (userRedoStacks s !! u = None ∨ userRedoStacks s !! u = Some [] →
   redoUserOperation u s = (s, false)).
Proof.
  split.
  - intros stk op Hs. rewrite (redo_nonempty s u stk op Hs). simpl.
    repeat split.
    + by rewrite lookup_insert_eq.
    + intros v Hv. by rewrite lookup_insert_ne.
  - intros Hempty. apply redo_nothing. unfold redoStackOf.
    by destruct Hempty as [-> | ->].
Qed.

(** C3. [addOperation op] yields the previous [history] with [op] at the
    tail, leaves the author's redo stack empty and every other user's
    stack untouched; it is a total function of the log and [op]. *)
Theorem C3_append_clears_only_author (s : t) (op : Operation) :
  history (addOperation op s) = history s ++ [op] ∧
  redoStackOf (userId op) (addOperation op s) = [] ∧
  snd (redoUserOperation (userId op) (addOperation op s)) = false ∧
  ∀ v, v ≠ userId op →
    userRedoStacks (addOperation op s) !! v = userRedoStacks s !! v.
Proof.
  assert (Hempty : redoStackOf (userId op) (addOperation op s) = []).
  { unfold redoStackOf, addOperation. simpl. by rewrite lookup_delete_eq. }
  split; [done|]. split; [done|]. split.
  - by rewrite (redo_nothing _ _ Hempty).
  - intros v Hv. unfold addOperation. simpl. by rewrite lookup_delete_ne.
Qed.

(** C5. When [history] holds no operation of user [u],
    [undoUserOperation u] returns [false] and the log is the same:
    same [history], same redo stacks. *)
Theorem C5_undo_nothing_is_noop (s : t) (u : string) :
  (∀ op, op ∈ history s → userId op ≠ u) →
  snd (undoUserOperation u s) = false ∧
  fst (undoUserOperation u s) = s.
Proof.
  intros Hnone. by rewrite (undo_not_found s u Hnone).
Qed.

(** C6. After [clear()], [getHistory()] is the empty sequence and every
    user's redo stack is empty. *)
Theorem C6_clear_empties_everything (s : t) :
  getHistory (clear s) = [] ∧
  ∀ u, userRedoStacks (clear s) !! u = None ∧
       redoStackOf u (clear s) = [] ∧
       snd (redoUserOperation u (clear s)) = false.
Proof.
  split; [done|]. intros u.
  assert (Hnone : userRedoStacks (clear s) !! u = None)
    by apply lookup_empty.
  assert (Hempty : redoStackOf u (clear s) = [])
    by (unfold redoStackOf; by rewrite Hnone).
  split; [done|]. split; [done|].
  by rewrite (redo_nothing _ _ Hempty).
Qed.

(** C1 on the history [[Draw(A), Draw(B), Draw(C)]], undo by A. *)
Lemma C1_witness :
  ∃ pre op post,
    history log3 = pre ++ op :: post ∧
    userId op = "A" ∧
    Forall (fun o => userId o ≠ "A") post ∧
    history (fst (undoUserOperation "A" log3)) = pre ++ post ∧
    redoStackOf "A" (fst (undoUserOperation "A" log3))
    = redoStackOf "A" log3 ++ [op] ∧
    (∀ v, v ≠ "A" →
       userRedoStacks (fst (undoUserOperation "A" log3)) !! v
       = userRedoStacks log3 !! v) ∧
    snd (undoUserOperation "A" log3) = true.
Proof.
  apply (C1_undo_removes_last_own log3 "A").
  exists drawA. split; [|reflexivity]. simpl. left.
Defined.

(** C2 on the history [[Draw(B), Draw(C)]] with A's redo stack
    [[Draw(A)]]: redo by A, and redo by B, who has no stack. *)
Lemma C2_witness :
  (history (fst (redoUserOperation "A" logRedo)) = [drawB; drawC; drawA] ∧
   userRedoStacks (fst (redoUserOperation "A" logRedo)) !! "A" = Some [] ∧
   (∀ v, v ≠ "A" →
      userRedoStacks (fst (redoUserOperation "A" logRedo)) !! v
      = userRedoStacks logRedo !! v) ∧
   snd (redoUserOperation "A" logRedo) = true) ∧
  redoUserOperation "B" logRedo = (logRedo, false).
Proof.
  split.
  - apply (proj1 (C2_redo_restores_to_tail logRedo "A") [] drawA).
    vm_compute. reflexivity.
  - apply (proj2 (C2_redo_restores_to_tail logRedo "B")).
    left. vm_compute. reflexivity.
Defined.

(** C3: B draws while A has [[Draw(A)]] to redo; A's stack stays. *)
Lemma C3_witness :
  userRedoStacks (addOperation drawB logRedo) !! "A" = Some [drawA].
Proof.
  rewrite (proj2 (proj2 (proj2
             (C3_append_clears_only_author logRedo drawB))) "A").
  - vm_compute. reflexivity.
  - simpl. discriminate.
Defined.

(** C5: undo by A on a history that holds nothing of A. *)
Lemma C5_witness :
  snd (undoUserOperation "A" logRedo) = false ∧
  fst (undoUserOperation "A" logRedo) = logRedo.
Proof.
  apply (C5_undo_nothing_is_noop logRedo "A").
  intros op Hin. simpl in Hin.
  apply elem_of_cons in Hin as [->|Hin]; [discriminate|].
  apply list_elem_of_singleton in Hin as ->. discriminate.
Defined.

End LogClaims.

Module ReplayClaims.
Import DrawingState Replay ReplayFacts Sample.

(** C4. Along every run of append/undo/redo/clear from the empty log in
    which each appended operation is a value the log does not hold yet,
    no operation is at once in [history] and in a redo stack, and none
    occurs twice in [history]. *)
Theorem C4_single_live_copy (cs : list LogCmd) :
  fresh_appends cs new = true →
  NoDup (history (exec cs new)) ∧
  ∀ u stk op,
    userRedoStacks (exec cs new) !! u = Some stk →
    op ∈ stk → op ∉ history (exec cs new).
Proof.
  intros Hfresh.
  destruct (inv_exec cs new inv_new Hfresh) as [Hnd Hst].
  split; [done|]. intros u stk op Hu Hop.
  by destruct (Hst u stk Hu) as [_ Hel], (Hel op Hop).
Qed.

(** C4 on a session of ten commands. *)
Lemma C4_witness :
  NoDup (history (exec session new)) ∧
  ∀ u stk op,
    userRedoStacks (exec session new) !! u = Some stk →
    op ∈ stk → op ∉ history (exec session new).
Proof.
  apply (C4_single_live_copy session). vm_compute. reflexivity.
Defined.

End ReplayClaims.

(** * The claims on rooms and the gateway *)

Module ServerClaims.
Import JsMapFacts ServerFacts Sample.

(** X1. A [request-undo], [request-redo], [clear-canvas] or
    [cursor-move] event for a roomId without a Room is dropped: the
    server state is the same and nothing is emitted. *)
Theorem unknown_room_dropped (sid roomId uid : string) (x y : Z)
    (st : Server) :
  JsMap.get roomId (rooms st) = None →
  handle sid (RequestUndo roomId uid) st = (st, []) ∧
  handle sid (RequestRedo roomId uid) st = (st, []) ∧
  handle sid (ClearCanvas roomId) st = (st, []) ∧
  handle sid (CursorMove roomId uid x y) st = (st, []).
Proof.
  intros Hr. simpl.
  unfold on_request_undo, on_request_redo, on_clear_canvas, on_cursor_move.
  by rewrite Hr.
Qed.

(** X1 on the registry without room r. *)
Lemma unknown_room_dropped_witness :
  handle "s1" (RequestUndo "r" "u") ghost_state = (ghost_state, []) ∧
  handle "s1" (RequestRedo "r" "u") ghost_state = (ghost_state, []) ∧
  handle "s1" (ClearCanvas "r") ghost_state = (ghost_state, []) ∧
  handle "s1" (CursorMove "r" "u" 3 4) ghost_state = (ghost_state, []).
Proof.
  apply (unknown_room_dropped "s1" "r" "u" 3 4 ghost_state).
  vm_compute. reflexivity.
Defined.

(** C7. A [draw] event for a roomId without a Room leaves the whole
    server state as it was, and yet the handler emits the
    [new-draw-operation] broadcast to that roomId: the event is not
    dropped silently. *)
Theorem C7_draw_unknown_room_broadcasts
    (sid roomId userId : string) (x0 y0 x1 y1 : Z) (color : string)
    (width now : Z) (st : Server) :
  JsMap.get roomId (rooms st) = None →
  handle sid (Draw roomId userId x0 y0 x1 y1 color width now) st =
  (st, [mkEmit (ToRoom roomId)
          (NewDrawOperation userId x0 y0 x1 y1 color width)]).
Proof. intros Hr. simpl. by apply draw_unknown_room. Qed.

(** C7 on a registry whose room r was deleted while the connection s1 is
    still in the socket.io room r. *)
Lemma C7_witness :
  "r" ∈ socket_rooms "s1" ghost_state ∧
  handle "s1" (Draw "r" "u" 0 0 5 5 "#FF0000" 3 1000) ghost_state =
  (ghost_state,
   [mkEmit (ToRoom "r") (NewDrawOperation "u" 0 0 5 5 "#FF0000" 3)]).
Proof.
  split.
  - vm_compute. right. left.
  - apply C7_draw_unknown_room_broadcasts. vm_compute. reflexivity.
Defined.

(** C8 as stated fails. Alice has left room r (only Bob is in its users
    map) and Alice's segment is still in the history; a [request-undo]
    naming alice takes it out of the history onto alice's redo stack, and
    a [request-redo] naming alice puts it back. *)
Lemma C8_departed_user_undo_still_applies :
  Room.users <$> JsMap.get "r" (rooms departed_state)
  = Some [("bob", mkUserData "s2" "Bob")] ∧
  DrawingState.history ∘ Room.drawingState
    <$> JsMap.get "r" (rooms departed_state) = Some [aliceOp] ∧
  DrawingState.history ∘ Room.drawingState
    <$> JsMap.get "r" (rooms departed_undone) = Some [] ∧
  DrawingState.redoStackOf "alice" ∘ Room.drawingState
    <$> JsMap.get "r" (rooms departed_undone) = Some [aliceOp] ∧
  Room.users <$> JsMap.get "r" (rooms departed_undone)
  = Some [("bob", mkUserData "s2" "Bob")] ∧
  DrawingState.history ∘ Room.drawingState
    <$> JsMap.get "r" (rooms departed_redone) = Some [aliceOp] ∧
  DrawingState.redoStackOf "alice" ∘ Room.drawingState
    <$> JsMap.get "r" (rooms departed_redone) = Some [].
Proof. repeat split; vm_compute; reflexivity. Qed.

(** C8, amended. The undo and redo handlers do not look at the users
    map: whether or not the named userId is among the users of an
    existing room, the room's log becomes the result of
    [undoUserOperation] (resp. [redoUserOperation]) for that userId,
    users and cursors staying as they were; the log is unchanged exactly
    when [history] holds no operation of that userId (resp. when its redo
    stack is empty or absent). *)
Theorem C8_unknown_user_undo_redo (sid roomId uid : string)
    (st : Server) (room : Room.t) :
  JsMap.get roomId (rooms st) = Some room →
  (∃ room',
     JsMap.get roomId (rooms (fst (handle sid (RequestUndo roomId uid) st)))
     = Some room' ∧
     Room.users room' = Room.users room ∧
     Room.cursorPositions room' = Room.cursorPositions room ∧
     Room.drawingState room'
     = fst (DrawingState.undoUserOperation uid (Room.drawingState room)) ∧
     (Room.drawingState room' = Room.drawingState room ↔
      ∀ op, op ∈ DrawingState.history (Room.drawingState room) →
            userId op ≠ uid)) ∧
  (∃ room',
     JsMap.get roomId (rooms (fst (handle sid (RequestRedo roomId uid) st)))
     = Some room' ∧
     Room.users room' = Room.users room ∧
     Room.cursorPositions room' = Room.cursorPositions room ∧
     Room.drawingState room'
     = fst (DrawingState.redoUserOperation uid (Room.drawingState room)) ∧
     (Room.drawingState room' = Room.drawingState room ↔
      DrawingState.redoStackOf uid (Room.drawingState room) = [])).
Proof.
  intros Hroom. split.
  - eexists. split; [by apply undo_get|]. simpl.
    repeat split; try done; apply undo_unchanged_iff.
  - eexists. split; [by apply redo_get|]. simpl.
    repeat split; try done; apply redo_unchanged_iff.
Qed.

(** The amended statement at the room Alice has left, where alice is
    no longer among the users: it gives the log after the undo naming
    alice, which is not the log before. *)
Lemma C8_witness :
  ∃ room',
    JsMap.get "r" (rooms departed_undone) = Some room' ∧
    Room.users room' = [("bob", mkUserData "s2" "Bob")] ∧
    DrawingState.history (Room.drawingState room') = [].
Proof.
  assert (Hr : JsMap.get "r" (rooms departed_state)
               = Some (Room.mk "r" [("bob", mkUserData "s2" "Bob")] []
                         (DrawingState.mk [aliceOp] ∅)))
    by (vm_compute; reflexivity).
  destruct (proj1 (C8_unknown_user_undo_redo "s2" "r" "alice"
                     departed_state _ Hr))
    as (room' & Hget & Husers & _ & Hlog & _).
  exists room'. split; [exact Hget|]. split; [exact Husers|].
  rewrite Hlog. vm_compute. reflexivity.
Defined.

(** C9. On [join-room] the joining user is stored in the room and gets
    the palette color at index [n mod 8], [n] being the size of the
    room's users map once the user is in it: the second palette entry in
    a room created by the join, the first one for the eighth user. *)
Theorem C9_join_color (sid roomId uid userName : string) (st : Server) :
  length colors = 8%nat ∧
  (∃ room',
     JsMap.get roomId
       (rooms (fst (handle sid (JoinRoom roomId uid userName) st)))
     = Some room' ∧
     JsMap.get uid (Room.users room') = Some (mkUserData sid userName) ∧
     userColors (fst (handle sid (JoinRoom roomId uid userName) st)) !! uid
     = colors !! (JsMap.size (Room.users room') mod 8)%nat) ∧
  (JsMap.get roomId (rooms st) = None →
   userColors (fst (handle sid (JoinRoom roomId uid userName) st)) !! uid
   = colors !! 1%nat) ∧
  (∀ room,
     JsMap.get roomId (rooms st) = Some room →
     JsMap.get uid (Room.users room) = None →
     JsMap.size (Room.users room) = 7%nat →
     userColors (fst (handle sid (JoinRoom roomId uid userName) st)) !! uid
     = colors !! 0%nat).
Proof.
  split; [done|]. simpl. split; [|split].
  - eexists. split; [apply join_room_get|]. split.
    + simpl. apply get_set_eq.
    + rewrite join_room_colors, lookup_insert_eq.
      symmetry. apply palette_lookup.
  - intros Hnone. rewrite join_room_colors, lookup_insert_eq, Hnone.
    by rewrite <- palette_lookup.
  - intros room Hroom Huser Hsize.
    rewrite join_room_colors, lookup_insert_eq, Hroom.
    rewrite <- palette_lookup. simpl. rewrite size_set.
    apply has_false in Huser. by rewrite Huser, Hsize.
Qed.

(** C9: the first user of a fresh room, and the eighth user of a room. *)
Lemma C9_witness :
  userColors (fst (handle "s1" (JoinRoom "r" "alice" "Alice") initial))
    !! "alice" = Some "#4ECDC4" ∧
  userColors (fst (handle "s8" (JoinRoom "r" "u8" "U8") seven_state))
    !! "u8" = Some "#FF6B6B".
Proof.
  split.
  - apply (proj1 (proj2 (proj2
             (C9_join_color "s1" "r" "alice" "Alice" initial)))).
    reflexivity.
  - eapply (proj2 (proj2 (proj2
              (C9_join_color "s8" "r" "u8" "U8" seven_state)))).
    + vm_compute. reflexivity.
    + vm_compute. reflexivity.
    + vm_compute. reflexivity.
Defined.

(** C10. A [join-room] for another room leaves a room of the registry
    exactly as it was (its users, cursors and log); no handler but the
    disconnect handler takes a room out of the registry or a userId out
    of a room's users or cursor map; and the disconnect handler deletes a
    room only after removing a user of the closing socket has left its
    users map empty. *)
Theorem C10_membership_outlives_join_elsewhere
    (roomA : string) (room : Room.t) (st : Server) :
  JsMap.get roomA (rooms st) = Some room →
  (∀ sid roomB uid userName,
     roomA ≠ roomB →
     JsMap.get roomA
       (rooms (fst (handle sid (JoinRoom roomB uid userName) st)))
     = Some room) ∧
  (∀ sid ev,
     ev ≠ Disconnect →
     ∃ room',
       JsMap.get roomA (rooms (fst (handle sid ev st))) = Some room' ∧
       (∀ u, JsMap.has u (Room.users room) = true →
             JsMap.has u (Room.users room') = true) ∧
       (∀ u, JsMap.has u (Room.cursorPositions room) = true →
             JsMap.has u (Room.cursorPositions room') = true)) ∧
  (∀ sid,
     wf st →
     JsMap.get roomA (rooms (fst (handle sid Disconnect st))) = None →
     ∃ e, find (fun e => bool_decide (socketId (snd e) = sid))
               (Room.users room) = Some e ∧
          Room.users (Room.removeUser (fst e) room) = []).
Proof.
  intros Hroom. split; [|split].
  - intros sid roomB uid userName Hne. simpl.
    by rewrite join_room_get_other.
  - intros sid ev Hev.
    destruct (handle_keeps_members sid ev st roomA room Hev Hroom)
      as (room' & Hget & Husers & Hcursors).
    eauto.
  - intros sid Hwf. by apply disconnect_destroys_only_emptied.
Qed.

(** C10: Alice's connection, registered in room a, joins room b; it
    leaves the socket.io room a and room a stays as it was. *)
Lemma C10_witness :
  JsMap.get "a"
    (rooms (fst (handle "s1" (JoinRoom "b" "alice" "Alice") alone_state)))
  = JsMap.get "a" (rooms alone_state) ∧
  socket_rooms "s1"
    (fst (handle "s1" (JoinRoom "b" "alice" "Alice") alone_state))
  = ["s1"; "b"].
Proof.
  split; [|vm_compute; reflexivity].
  assert (Ha : JsMap.get "a" (rooms alone_state)
               = Some (Room.mk "a" [("alice", mkUserData "s1" "Alice")]
                         [("alice", Position.mk 7 9)]
                         (DrawingState.mk
                            [mkOperation "draw" "alice" 0 0 5 5 "#FF0000" 3
                               1000] ∅)))
    by (vm_compute; reflexivity).
  rewrite Ha.
  apply (proj1 (C10_membership_outlives_join_elsewhere "a" _ alone_state Ha)).
  discriminate.
Defined.

End ServerClaims.

Module LogViewFacts.
Import DrawingState DrawingStateFacts LogViews.

Lemma own_app u h1 h2 : own u (h1 ++ h2) = own u h1 ++ own u h2.
Proof. apply filter_app. Qed.

Lemma others_app u h1 h2 : others u (h1 ++ h2) = others u h1 ++ others u h2.
Proof. apply filter_app. Qed.

Lemma own_none u h : Forall (fun o => userId o ≠ u) h → own u h = [].
Proof.
  induction 1 as [|o h Ho _ IH]; [done|].
  unfold own in *. by rewrite filter_cons_False.
Qed.

Lemma others_all u h : Forall (fun o => userId o ≠ u) h → others u h = h.
Proof.
  induction 1 as [|o h Ho _ IH]; [done|].
  unfold others in *. rewrite filter_cons_True by done. by rewrite IH.
Qed.

Lemma own_nil_iff u h : own u h = [] ↔ ∀ op, op ∈ h → userId op ≠ u.
Proof.
  split.
  - intros Hnil op Hin Hu.
    assert (Hown : op ∈ own u h) by (apply list_elem_of_filter; done).
    rewrite Hnil in Hown. by apply not_elem_of_nil in Hown.
  - intros Hnone. apply own_none, Forall_forall. done.
Qed.

(** The log after an undo that finds an operation. *)
Lemma undo_snoc u h op stacks :
  userId op = u →
  undoUserOperation u (mk (h ++ [op]) stacks)
  = (mk h (<[u := default [] (stacks !! u) ++ [op]]> stacks), true).
Proof.
  intros Hu. unfold undoUserOperation, splice1. simpl.
  rewrite length_app. simpl. rewrite Nat.add_1_r. simpl.
  rewrite lookup_app_r by lia. rewrite Nat.sub_diag. simpl.
  rewrite decide_True by done.
  rewrite lookup_app_r by lia. rewrite Nat.sub_diag. simpl.
  rewrite take_app_length.
  rewrite drop_ge by (rewrite length_app; simpl; lia).
  by rewrite app_nil_r, push_redo.
Qed.

Lemma append_undo op s :
  undoUserOperation (userId op) (addOperation op s)
  = (mk (history s) (<[userId op := [op]]> (userRedoStacks s)), true).
Proof.
  unfold addOperation. rewrite (undo_snoc (userId op)) by done.
  rewrite lookup_delete_eq. simpl. by rewrite insert_delete_eq.
Qed.

Lemma undo_views u s :
  others u (history (fst (undoUserOperation u s))) = others u (history s) ∧
  own u (history (fst (undoUserOperation u s)))
  = removelast (own u (history s)) ∧
  redoStackOf u (fst (undoUserOperation u s))
  = redoStackOf u s ++ from_option (fun o => [o]) [] (last (own u (history s)))
  ∧ snd (undoUserOperation u s)
    = bool_decide (own u (history s) ≠ []).
Proof.
  destruct (decide (own u (history s) = [])) as [Hnil|Hsome].
  - rewrite undo_not_found by (by apply own_nil_iff).
    simpl. rewrite Hnil. simpl. rewrite app_nil_r.
    repeat split; try done.
  - destruct (undo_found s u) as (pre & op & post & Hh & Hu & Hpost & ->).
    { destruct (own u (history s)) as [|o l] eqn:Ho; [done|].
      assert (Hin : o ∈ own u (history s)) by (rewrite Ho; left).
      apply list_elem_of_filter in Hin as [? ?]. eauto. }
    simpl. rewrite Hh, !others_app, !own_app.
    change (op :: post) with ([op] ++ post).
    rewrite others_app, own_app, (own_none u post Hpost).
    assert (Hop : own u [op] = [op]).
    { unfold own. rewrite filter_cons_True by done. done. }
    assert (Hop' : others u [op] = []).
    { unfold others. rewrite filter_cons_False by (intros ?; done). done. }
    rewrite Hop, Hop', !app_nil_r. simpl.
    rewrite removelast_last, last_snoc. simpl.
    unfold redoStackOf at 1. simpl. rewrite lookup_insert_eq.
    repeat split; try done.
    rewrite bool_decide_eq_true_2; [done|].
    intros Hc. by apply app_eq_nil in Hc as [_ ?].
Qed.

Lemma others_of_no_own u h : own u h = [] → others u h = h.
Proof.
  intros Hnil. apply others_all, Forall_forall. by apply own_nil_iff.
Qed.

Lemma redoStackOf_snoc u s stk op :
  redoStackOf u s = stk ++ [op] → userRedoStacks s !! u = Some (stk ++ [op]).
Proof.
  unfold redoStackOf. destruct (userRedoStacks s !! u); simpl.
  - by intros ->.
  - intros Hnil. symmetry in Hnil. by apply app_eq_nil in Hnil as [_ ?].
Qed.

Lemma redo_views u s stk op :
  redoStackOf u s = stk ++ [op] →
  history (fst (redoUserOperation u s)) = history s ++ [op] ∧
  redoStackOf u (fst (redoUserOperation u s)) = stk ∧
  (∀ v, v ≠ u →
     userRedoStacks (fst (redoUserOperation u s)) !! v
     = userRedoStacks s !! v) ∧
  snd (redoUserOperation u s) = true.
Proof.
  intros Hs%redoStackOf_snoc. rewrite (redo_nonempty s u stk op Hs). simpl.
  unfold redoStackOf. simpl. rewrite lookup_insert_eq.
  repeat split; try done. intros v Hv. by rewrite lookup_insert_ne.
Qed.

Lemma take_pred_snoc {A} (l : list A) k :
  (0 < k ≤ length l)%nat →
  ∃ x, take k l = take (k - 1) l ++ [x] ∧ drop (k - 1) l = x :: drop k l.
Proof.
  intros [Hk Hl]. destruct k as [|k]; [lia|].
  replace (S k - 1)%nat with k by lia.
  destruct (lookup_lt_is_Some_2 l k) as [x Hx]; [lia|].
  exists x. split.
  - by apply take_S_r.
  - by rewrite (drop_S l x k Hx).
Qed.

Lemma undo_times_views n u s :
  (n ≤ length (own u (history s)))%nat →
  others u (history (undo_times n u s)) = others u (history s) ∧
  own u (history (undo_times n u s))
  = take (length (own u (history s)) - n) (own u (history s)) ∧
  redoStackOf u (undo_times n u s)
  = redoStackOf u s
    ++ reverse (drop (length (own u (history s)) - n) (own u (history s))).
Proof.
  induction n as [|n IH]; intros Hn.
  - simpl. rewrite Nat.sub_0_r, firstn_all, drop_all. simpl.
    by rewrite app_nil_r.
  - destruct IH as (Ho & Hown & Hstk); [lia|].
    change (undo_times (S n) u s)
      with (fst (undoUserOperation u (undo_times n u s))).
    destruct (undo_views u (undo_times n u s)) as (Ho' & Hown' & Hstk' & _).
    rewrite Ho', Hown', Hstk', Ho, Hown, Hstk.
    destruct (take_pred_snoc (own u (history s))
                (length (own u (history s)) - n)) as (x & Htake & Hdrop);
      [lia|].
    replace (length (own u (history s)) - S n)%nat
      with (length (own u (history s)) - n - 1)%nat by lia.
    rewrite Htake, Hdrop, removelast_last, last_snoc, reverse_cons. simpl.
    by rewrite app_assoc.
Qed.

Lemma redo_times_views l : ∀ u s base,
  redoStackOf u s = base ++ reverse l →
  history (redo_times (length l) u s) = history s ++ l ∧
  redoStackOf u (redo_times (length l) u s) = base ∧
  ∀ v, v ≠ u →
    userRedoStacks (redo_times (length l) u s) !! v = userRedoStacks s !! v.
Proof.
  induction l as [|x l IH]; intros u s base Hs.
  - simpl in *. by rewrite !app_nil_r in *.
  - rewrite reverse_cons, app_assoc in Hs.
    destruct (redo_views u s _ x Hs) as (Hh & Hstk & Hoth & _).
    change (length (x :: l)) with (S (length l)).
    unfold redo_times. rewrite Nat.iter_succ_r.
    destruct (IH u (fst (redoUserOperation u s)) base Hstk)
      as (Hh' & Hstk' & Hoth').
    unfold redo_times in *. rewrite Hh', Hstk', Hh.
    split; [by rewrite <- app_assoc|]. split; [done|].
    intros v Hv. by rewrite Hoth', Hoth.
Qed.

Lemma own_stacks_new : own_stacks new.
Proof. intros u stk op Hs. simpl in Hs. by rewrite lookup_empty in Hs. Qed.

Lemma own_stacks_step c s : own_stacks s → own_stacks (Replay.step c s).
Proof.
  intros Hs. destruct c as [op|u|u|]; simpl.
  - intros v stk o Hv. simpl in Hv.
    apply lookup_delete_Some in Hv as [_ Hv]. by apply (Hs v stk o).
  - destruct (decide (own u (history s) = [])) as [Hnil|Hsome].
    + rewrite undo_not_found by (by apply own_nil_iff). done.
    + destruct (undo_found s u) as (pre & op & post & _ & Hu & _ & ->).
      { destruct (own u (history s)) as [|o l] eqn:Ho; [done|].
        assert (Hin : o ∈ own u (history s)) by (rewrite Ho; left).
        apply list_elem_of_filter in Hin as [? ?]. eauto. }
      simpl. intros v stk o Hv Ho. simpl in Hv.
      destruct (decide (v = u)) as [->|Hne].
      * rewrite lookup_insert_eq in Hv. injection Hv as <-.
        apply elem_of_app in Ho as [Ho|Ho].
        -- unfold redoStackOf in Ho.
           destruct (userRedoStacks s !! u) as [old|] eqn:Hold; simpl in Ho.
           ++ by apply (Hs u old o).
           ++ by apply not_elem_of_nil in Ho.
        -- by apply list_elem_of_singleton in Ho as ->.
      * rewrite lookup_insert_ne in Hv by done. by apply (Hs v stk o).
  - unfold redoUserOperation.
    destruct (userRedoStacks s !! u) as [stk|] eqn:Hstk; [|done].
    destruct (last stk) as [op|] eqn:Hl; [|done].
    simpl. intros v stk' o Hv Ho. simpl in Hv.
    destruct (decide (v = u)) as [->|Hne].
    + rewrite lookup_insert_eq in Hv. injection Hv as <-.
      apply (Hs u stk o Hstk). apply last_snoc_inv in Hl. rewrite Hl.
      apply elem_of_app. by left.
    + rewrite lookup_insert_ne in Hv by done. by apply (Hs v stk' o).
  - apply own_stacks_new.
Qed.

Lemma own_stacks_exec cs : ∀ s, own_stacks s → own_stacks (Replay.exec cs s).
Proof.
  induction cs as [|c cs IH]; intros s Hs; [done|].
  simpl. apply IH. by apply own_stacks_step.
Qed.

(** A redo by [u] under [own_stacks] adds an operation of [u] or
    nothing. *)
Lemma redo_others u s :
  own_stacks s →
  others u (history (fst (redoUserOperation u s))) = others u (history s) ∧
  own u (history (fst (redoUserOperation u s)))
  = own u (history s) ++ from_option (fun o => [o]) [] (last (redoStackOf u s)).
Proof.
  intros Hs. destruct (redoStackOf u s) as [|o l _] eqn:Hstk using rev_ind.
  - rewrite redo_nothing by done. simpl. by rewrite app_nil_r.
  - destruct (redo_views u s l o Hstk) as (-> & _).
    apply redoStackOf_snoc in Hstk.
    assert (Hu : userId o = u).
    { apply (Hs u _ o Hstk). apply elem_of_app. right. left. }
    rewrite others_app, own_app, last_snoc. simpl.
    unfold others, own. rewrite filter_cons_False by (intros ?; done).
    rewrite filter_cons_True by done. simpl. by rewrite app_nil_r.
Qed.

End LogViewFacts.

(** * Further properties of the operation log *)

Module LogExtras.
Import DrawingState DrawingStateFacts LogViews LogViewFacts Sample MoreSamples.

(** X2. [undoUserOperation(u)] never touches the operations of other
    users: they stay in [history] in their order, the operations of [u]
    lose their last element (if any), and the call returns [true]
    exactly when [u] had an operation in [history]. *)
Theorem undo_is_per_user (u : string) (s : t) :
  others u (history (fst (undoUserOperation u s))) = others u (history s) ∧
  own u (history (fst (undoUserOperation u s)))
  = removelast (own u (history s)) ∧
  (snd (undoUserOperation u s) = true ↔
   ∃ op, op ∈ history s ∧ userId op = u).
Proof.
  destruct (undo_views u s) as (Ho & Hown & _ & Hret).
  split; [done|]. split; [done|]. rewrite Hret, bool_decide_eq_true.
  split.
  - intros Hne. destruct (own u (history s)) as [|o l] eqn:E; [done|].
    assert (Hin : o ∈ own u (history s)) by (rewrite E; left).
    apply list_elem_of_filter in Hin as [? ?]. eauto.
  - intros (op & Hin & Hu) Hnil.
    by apply (proj1 (own_nil_iff u (history s)) Hnil op).
Qed.

(** X3. A successful redo followed by an undo of the same user gives
    back the log as it was, redo stacks included, when the operation on
    top of the user's redo stack is one of that user. *)
Theorem redo_then_undo_is_identity (u : string) (s : t)
    (stk : list Operation) (op : Operation) :
  userRedoStacks s !! u = Some (stk ++ [op]) →
  userId op = u →
  undoUserOperation u (fst (redoUserOperation u s)) = (s, true).
Proof.
  intros Hs Hu. rewrite (redo_nonempty s u stk op Hs). simpl.
  rewrite (undo_snoc u (history s) op _ Hu).
  rewrite lookup_insert_eq. simpl.
  rewrite insert_insert_eq, (insert_id _ _ _ Hs). by destruct s.
Qed.

(** X3 on the log with history [[Draw(B), Draw(C)]] and A's redo stack
    [[Draw(A)]]. *)
Lemma redo_then_undo_is_identity_witness :
  undoUserOperation "A" (fst (redoUserOperation "A" logRedo))
  = (logRedo, true).
Proof.
  apply (redo_then_undo_is_identity "A" logRedo [] drawA).
  - vm_compute. reflexivity.
  - reflexivity.
Defined.

(** X4. After [addOperation(op)], an undo by the author takes exactly
    [op] back: [history] is what it was before the append and the
    author's redo stack is [[op]]; a redo then yields the history the
    append had produced, with nothing left to redo. *)
Theorem append_undo_redo_round_trip (op : Operation) (s : t) :
  undoUserOperation (userId op) (addOperation op s)
  = (mk (history s) (<[userId op := [op]]> (userRedoStacks s)), true) ∧
  redoUserOperation (userId op)
    (fst (undoUserOperation (userId op) (addOperation op s)))
  = (mk (history s ++ [op]) (<[userId op := []]> (userRedoStacks s)), true).
Proof.
  pose proof (append_undo op s) as Hundo.
  split; [done|]. rewrite Hundo. simpl.
  rewrite (redo_nonempty _ (userId op) [] op); simpl.
  - by rewrite insert_insert_eq.
  - by rewrite lookup_insert_eq.
Qed.

(** X5. An undo that finds an operation, followed by a redo of the same
    user, moves that user's last operation to the tail of [history]:
    from [pre ++ op :: post] to [pre ++ post ++ [op]], the user's redo
    stack holding again what it held before. *)
Theorem undo_then_redo_moves_to_tail (u : string) (s : t) :
  (∃ op, op ∈ history s ∧ userId op = u) →
  ∃ pre op post,
    history s = pre ++ op :: post ∧
    userId op = u ∧
    Forall (fun o => userId o ≠ u) post ∧
    history (fst (redoUserOperation u (fst (undoUserOperation u s))))
    = pre ++ post ++ [op] ∧
    redoStackOf u (fst (redoUserOperation u (fst (undoUserOperation u s))))
    = redoStackOf u s ∧
    snd (redoUserOperation u (fst (undoUserOperation u s))) = true.
Proof.
  intros Hex.
  destruct (undo_found s u Hex) as (pre & op & post & Hh & Hu & Hpost & ->).
  exists pre, op, post. simpl.
  rewrite (redo_nonempty _ u (redoStackOf u s) op)
    by (simpl; by rewrite lookup_insert_eq).
  simpl. unfold redoStackOf at 1. simpl. rewrite lookup_insert_eq. simpl.
  by rewrite <- app_assoc.
Qed.

(** X5 on the history [[Draw(A), Draw(B), Draw(C)]]: A's stroke ends up
    last. *)
Lemma undo_then_redo_moves_to_tail_witness :
  ∃ pre op post,
    history log3 = pre ++ op :: post ∧
    userId op = "A" ∧
    Forall (fun o => userId o ≠ "A") post ∧
    history (fst (redoUserOperation "A" (fst (undoUserOperation "A" log3))))
    = pre ++ post ++ [op] ∧
    redoStackOf "A"
      (fst (redoUserOperation "A" (fst (undoUserOperation "A" log3))))
    = redoStackOf "A" log3 ∧
    snd (redoUserOperation "A" (fst (undoUserOperation "A" log3))) = true.
Proof.
  apply (undo_then_redo_moves_to_tail "A" log3).
  exists drawA. split; [left | reflexivity].
Defined.

(** X6. Undoing as many times as [u] has operations in [history] leaves
    exactly the operations of the other users, in their order, and
    stacks those of [u] most recent first on top of [u]'s redo stack; one
    more undo finds nothing. Redoing as many times then appends the
    operations of [u], in their original order, after those of the
    others, and [u]'s redo stack is what it was at the start. *)
Theorem undo_all_then_redo_all (u : string) (s : t) :
  history (undo_times (length (own u (history s))) u s)
  = others u (history s) ∧
  redoStackOf u (undo_times (length (own u (history s))) u s)
  = redoStackOf u s ++ reverse (own u (history s)) ∧
  undoUserOperation u (undo_times (length (own u (history s))) u s)
  = (undo_times (length (own u (history s))) u s, false) ∧
  history (redo_times (length (own u (history s))) u
             (undo_times (length (own u (history s))) u s))
  = others u (history s) ++ own u (history s) ∧
  redoStackOf u (redo_times (length (own u (history s))) u
                   (undo_times (length (own u (history s))) u s))
  = redoStackOf u s.
Proof.
  destruct (undo_times_views (length (own u (history s))) u s)
    as (Ho & Hown & Hstk); [done|].
  rewrite Nat.sub_diag in Hown, Hstk. simpl in Hown. rewrite drop_0 in Hstk.
  assert (Hh : history (undo_times (length (own u (history s))) u s)
               = others u (history s)).
  { rewrite <- Ho. symmetry. by apply others_of_no_own. }
  split; [done|]. split; [done|]. split.
  { apply undo_not_found. by apply own_nil_iff. }
  destruct (redo_times_views (own u (history s)) u _ _ Hstk) as (Hr & Hs & _).
  by rewrite Hr, Hs, Hh.
Qed.

(** X7. Along every run of append/undo/redo/clear from the empty log,
    whatever is appended, each redo stack holds only operations of the
    user it belongs to, so a redo by [u] leaves the operations of the
    other users in [history] as they are. *)
Theorem redo_stacks_hold_own_operations (cs : list LogCmd) (u : string) :
  (∀ stk op,
     userRedoStacks (Replay.exec cs new) !! u = Some stk →
     op ∈ stk → userId op = u) ∧
  others u (history (fst (redoUserOperation u (Replay.exec cs new))))
  = others u (history (Replay.exec cs new)).
Proof.
  pose proof (own_stacks_exec cs new own_stacks_new) as Hown.
  split.
  - intros stk op. apply Hown.
  - by apply redo_others.
Qed.

(** X7 on a session after which C has one stroke to redo. *)
Lemma redo_stacks_hold_own_operations_witness :
  userId drawC = "C".
Proof.
  apply (proj1 (redo_stacks_hold_own_operations busy_session "C") [drawC]).
  - vm_compute. reflexivity.
  - left.
Defined.

(** X8. Undo and redo only move operations between [history] and the
    user's redo stack: together they hold the same operations, as many
    times each, before and after. *)
Theorem undo_redo_conserve_operations (u : string) (s : t) :
  history (fst (undoUserOperation u s))
    ++ redoStackOf u (fst (undoUserOperation u s))
  ≡ₚ history s ++ redoStackOf u s ∧
  history (fst (redoUserOperation u s))
    ++ redoStackOf u (fst (redoUserOperation u s))
  ≡ₚ history s ++ redoStackOf u s.
Proof.
  split.
  - destruct (decide (own u (history s) = [])) as [Hnil|Hsome].
    + by rewrite undo_not_found by (by apply own_nil_iff).
    + destruct (undo_found s u) as (pre & op & post & Hh & _ & _ & ->).
      { destruct (own u (history s)) as [|o l] eqn:Ho; [done|].
        assert (Hin : o ∈ own u (history s)) by (rewrite Ho; left).
        apply list_elem_of_filter in Hin as [? ?]. eauto. }
      simpl. unfold redoStackOf at 1. simpl. rewrite lookup_insert_eq, Hh.
      simpl. solve_Permutation.
  - destruct (redoStackOf u s) as [|o l _] eqn:Hstk using rev_ind.
    + rewrite redo_nothing by done. simpl. by rewrite Hstk.
    + destruct (redo_views u s l o Hstk) as (-> & -> & _).
      solve_Permutation.
Qed.

End LogExtras.

Module JsMapMore.
Import JsMapFacts.
Section Ordered.
Context {V : Type}.
Implicit Types (m : list (string * V)) (k : string) (v : V).

Lemma set_set k v v' m : JsMap.set k v (JsMap.set k v' m) = JsMap.set k v m.
Proof.
  induction m as [|[k0 v0] m IH]; simpl.
  - by rewrite decide_True.
  - destruct (decide (k0 = k)) as [->|Hne]; simpl.
    + by rewrite decide_True.
    + by rewrite decide_False, IH.
Qed.

Lemma set_not_nil k v m : JsMap.set k v m ≠ [].
Proof. destruct m as [|[k0 v0] m]; simpl; [done|]. by destruct (decide _). Qed.

Lemma Forall_set (P : string * V → Prop) k v m :
  Forall P m → P (k, v) → Forall P (JsMap.set k v m).
Proof.
  intros Hm Hv. induction Hm as [|[k0 v0] m H0 Hm IH]; simpl.
  - by constructor.
  - destruct (decide (k0 = k)); by constructor.
Qed.

Lemma get_Some_elem k v m : JsMap.get k m = Some v → (k, v) ∈ m.
Proof.
  induction m as [|[k0 v0] m IH]; simpl; [done|].
  destruct (decide (k0 = k)) as [->|Hne].
  - intros [= ->]. left.
  - intros Hg. right. by apply IH.
Qed.

Lemma elem_get_Some k v m :
  NoDup (JsMap.keys m) → (k, v) ∈ m → JsMap.get k m = Some v.
Proof.
  induction m as [|[k0 v0] m IH]; simpl; [by intros _ ?%not_elem_of_nil|].
  intros [Hfresh Hnd]%NoDup_cons [Heq|Hin]%elem_of_cons.
  - injection Heq as -> ->. by rewrite decide_True.
  - destruct (decide (k0 = k)) as [->|Hne]; [|by apply IH].
    exfalso. apply Hfresh. apply list_elem_of_fmap. by exists (k, v).
Qed.

Lemma keys_delete_sublist k m :
  JsMap.keys (JsMap.delete k m) `sublist_of` JsMap.keys m.
Proof.
  induction m as [|[k0 v0] m IH]; simpl; [done|].
  destruct (decide (k0 = k)); simpl.
  - by apply sublist_cons.
  - by apply sublist_skip.
Qed.

Lemma NoDup_keys_delete k m :
  NoDup (JsMap.keys m) → NoDup (JsMap.keys (JsMap.delete k m)).
Proof. intros Hnd. eapply sublist_NoDup; [|apply keys_delete_sublist]. done. Qed.

Lemma get_delete_eq k m :
  NoDup (JsMap.keys m) → JsMap.get k (JsMap.delete k m) = None.
Proof.
  induction m as [|[k0 v0] m IH]; simpl; [done|].
  intros [Hfresh Hnd]%NoDup_cons.
  destruct (decide (k0 = k)) as [->|Hne]; simpl.
  - by apply get_None_keys.
  - rewrite decide_False by done. by apply IH.
Qed.

Lemma get_delete_ne k k' m :
  k ≠ k' → JsMap.get k' (JsMap.delete k m) = JsMap.get k' m.
Proof.
  intros Hne. induction m as [|[k0 v0] m IH]; simpl; [done|].
  destruct (decide (k0 = k)) as [->|Hne0]; simpl.
  - by rewrite decide_False.
  - by rewrite IH.
Qed.

Lemma delete_set_fresh k v m :
  JsMap.get k m = None → JsMap.delete k (JsMap.set k v m) = m.
Proof.
  induction m as [|[k0 v0] m IH]; simpl.
  - by rewrite decide_True.
  - destruct (decide (k0 = k)) as [->|Hne]; [done|].
    intros Hg. simpl. by rewrite decide_False, IH.
Qed.

Lemma delete_absent k m : JsMap.get k m = None → JsMap.delete k m = m.
Proof.
  induction m as [|[k0 v0] m IH]; simpl; [done|].
  destruct (decide (k0 = k)) as [->|Hne]; [done|].
  intros Hg. by rewrite IH.
Qed.

Lemma size_delete k m :
  JsMap.size (JsMap.delete k m)
  = if JsMap.has k m then pred (JsMap.size m) else JsMap.size m.
Proof.
  unfold JsMap.has, JsMap.size.
  induction m as [|[k0 v0] m IH]; simpl; [done|].
  destruct (decide (k0 = k)) as [->|Hne]; simpl; [done|].
  rewrite IH. destruct (JsMap.get k m) eqn:Hg; [|done].
  destruct m; [done|]. done.
Qed.

End Ordered.
End JsMapMore.

Module RegistryFacts.
Import JsMapFacts JsMapMore ServerFacts LogViews LogViewFacts.

Lemma join_room_rooms_set sid roomId uid userName st :
  rooms (fst (on_join_room sid roomId uid userName st)) =
  JsMap.set roomId
    (Room.addUser uid sid userName
       (default (Room.new roomId) (JsMap.get roomId (rooms st))))
    (rooms st).
Proof.
  rewrite join_room_rooms.
  destruct (JsMap.has roomId (rooms st)); [done|]. apply set_set.
Qed.

Lemma room_ok_lookup st r room :
  registry_ok st → JsMap.get r (rooms st) = Some room → room_ok r room.
Proof.
  intros [_ Hall] Hget. apply get_Some_elem in Hget.
  by apply (proj1 (Forall_forall _ _) Hall (r, room)).
Qed.

Lemma registry_ok_set st r room' uc sr :
  registry_ok st → room_ok r room' →
  registry_ok (mkServer (JsMap.set r room' (rooms st)) uc sr).
Proof.
  intros [Hnd Hall] Hok. split; simpl.
  - by apply NoDup_keys_set.
  - by apply Forall_set.
Qed.

Lemma room_ok_log r room d :
  room_ok r room → own_stacks d → room_ok r (Room.withDrawingState d room).
Proof. intros (? & ? & ? & ? & _) Hd. by repeat split. Qed.

Lemma room_ok_addUser r room uid sid nm :
  room_ok r room ∨ room = Room.new r →
  room_ok r (Room.addUser uid sid nm room).
Proof.
  intros [(Hid & _ & Hu & Hc & Hl) | ->]; repeat split; simpl;
    try done; try apply set_not_nil; try by apply NoDup_keys_set.
  all: try apply NoDup_singleton; try constructor; try apply own_stacks_new.
Qed.

Lemma room_ok_updateCursor r room uid x y :
  room_ok r room → room_ok r (Room.updateCursor uid x y room).
Proof.
  intros (Hid & Hne & Hu & Hc & Hl). repeat split; simpl; try done.
  by apply NoDup_keys_set.
Qed.

Lemma room_ok_removeUser r room uid :
  room_ok r room →
  JsMap.size (Room.users (Room.removeUser uid room)) ≠ 0%nat →
  room_ok r (Room.removeUser uid room).
Proof.
  intros (Hid & Hne & Hu & Hc & Hl) Hsize. repeat split; simpl; try done.
  - intros Hnil. simpl in Hsize. by rewrite Hnil in Hsize.
  - by apply NoDup_keys_delete.
  - by apply NoDup_keys_delete.
Qed.

Lemma disconnect_rooms_ok sid todo : ∀ uc,
  Forall (fun e => room_ok (fst e) (snd e)) todo →
  Forall (fun e => room_ok (fst e) (snd e))
    (disconnect_rooms sid todo uc).1.1.
Proof.
  induction todo as [|[roomId room0] rest IH]; intros uc Hall; simpl;
    [done|].
  apply Forall_cons in Hall as [Hroom Hrest].
  destruct (find _ (Room.users room0)) as [userEntry|].
  - specialize (IH (delete (fst userEntry) uc) Hrest).
    destruct (disconnect_rooms sid rest (delete (fst userEntry) uc))
      as [[rest' uc2] outs]. simpl in *.
    destruct (decide _) as [|Hsize]; simpl; [done|].
    constructor; [|done]. simpl. by apply room_ok_removeUser.
  - specialize (IH uc Hrest).
    destruct (disconnect_rooms sid rest uc) as [[rest' uc2] outs].
    simpl in *. by constructor.
Qed.

Lemma registry_ok_initial : registry_ok initial.
Proof. split; constructor. Qed.

Lemma registry_ok_handle sid ev st :
  registry_ok st → registry_ok (fst (handle sid ev st)).
Proof.
  intros Hok.
  destruct ev as [rid uid nm | rid uid a0 b0 a1 b1 c w t | rid uid a b
                 | rid uid | rid uid | rid |]; simpl.
  - split.
    + apply wf_handle with (ev := JoinRoom rid uid nm) (sid := sid).
      apply Hok.
    + rewrite join_room_rooms_set. apply Forall_set; [apply Hok|]. simpl.
      apply room_ok_addUser.
      destruct (JsMap.get rid (rooms st)) as [room|] eqn:Hget; simpl.
      * left. by eapply room_ok_lookup.
      * by right.
  - unfold on_draw. destruct (JsMap.get rid (rooms st)) as [room|] eqn:Hget.
    + apply registry_ok_set; [done|]. apply room_ok_log.
      * by eapply room_ok_lookup.
      * apply (own_stacks_step (Append _)).
        by eapply room_ok_lookup.
    + by destruct st.
  - unfold on_cursor_move.
    destruct (JsMap.get rid (rooms st)) as [room|] eqn:Hget; [|done].
    simpl. apply registry_ok_set; [done|]. apply room_ok_updateCursor.
    by eapply room_ok_lookup.
  - unfold on_request_undo.
    destruct (JsMap.get rid (rooms st)) as [room|] eqn:Hget; [|done].
    simpl. apply registry_ok_set; [done|]. apply room_ok_log.
    + by eapply room_ok_lookup.
    + apply (own_stacks_step (Undo uid)). by eapply room_ok_lookup.
  - unfold on_request_redo.
    destruct (JsMap.get rid (rooms st)) as [room|] eqn:Hget; [|done].
    simpl. apply registry_ok_set; [done|]. apply room_ok_log.
    + by eapply room_ok_lookup.
    + apply (own_stacks_step (Redo uid)). by eapply room_ok_lookup.
  - unfold on_clear_canvas.
    destruct (JsMap.get rid (rooms st)) as [room|] eqn:Hget; [|done].
    simpl. apply registry_ok_set; [done|]. apply room_ok_log.
    + by eapply room_ok_lookup.
    + apply own_stacks_new.
  - split.
    + apply wf_handle with (ev := Disconnect) (sid := sid). apply Hok.
    + rewrite on_disconnect_rooms. apply disconnect_rooms_ok, Hok.
Qed.

Lemma registry_ok_run evs : ∀ st,
  registry_ok st → registry_ok (fst (run evs st)).
Proof.
  induction evs as [|[sid ev] evs IH]; intros st Hok; [done|].
  simpl. pose proof (registry_ok_handle sid ev st Hok) as H1.
  destruct (handle sid ev st) as [st1 out1].
  specialize (IH st1 H1).
  by destruct (run evs st1) as [st2 out2].
Qed.

(** An event that names a room leaves the other rooms alone. *)
Lemma handle_other_room sid ev st r r' :
  addressed ev = Some r →
  r' ≠ r →
  JsMap.get r' (rooms (fst (handle sid ev st))) = JsMap.get r' (rooms st).
Proof.
  intros Haddr Hne.
  destruct ev as [rid uid nm | rid uid a0 b0 a1 b1 c w t | rid uid a b
                 | rid uid | rid uid | rid |]; simpl in *;
    try discriminate; injection Haddr as ->.
  - by apply join_room_get_other.
  - unfold on_draw. simpl.
    destruct (JsMap.get r (rooms st)); [|done]. by rewrite get_set_ne.
  - unfold on_cursor_move.
    destruct (JsMap.get r (rooms st)); [|done]. simpl. by rewrite get_set_ne.
  - unfold on_request_undo.
    destruct (JsMap.get r (rooms st)); [|done]. simpl. by rewrite get_set_ne.
  - unfold on_request_redo.
    destruct (JsMap.get r (rooms st)); [|done]. simpl. by rewrite get_set_ne.
  - unfold on_clear_canvas.
    destruct (JsMap.get r (rooms st)); [|done]. simpl. by rewrite get_set_ne.
Qed.

(** The socket.io rooms of a connection. *)
Lemma socket_shape_default sid st :
  sockets_ok st → socket_shape sid (socket_rooms sid st).
Proof.
  intros Hok. unfold socket_rooms.
  destruct (socketRooms st !! sid) as [rs|] eqn:Hrs; simpl.
  - by apply Hok.
  - by left.
Qed.

Lemma join_socketRooms sid rid uid nm st :
  socketRooms (fst (on_join_room sid rid uid nm st)) !! sid
  = Some (socket_join rid
      match find (fun r => bool_decide (r ≠ sid)) (socket_rooms sid st) with
      | Some previousRoom =>
          if decide (previousRoom = "") then socket_rooms sid st
          else socket_leave previousRoom (socket_rooms sid st)
      | None => socket_rooms sid st
      end).
Proof.
  unfold on_join_room.
  destruct (JsMap.get rid _) as [room0|] eqn:Hget.
  - simpl. by rewrite lookup_insert_eq.
  - exfalso. destruct (JsMap.has rid (rooms st)) eqn:Hh.
    + apply has_true in Hh as [? Hh]. congruence.
    + by rewrite get_set_eq in Hget.
Qed.

(** From its own room alone or with one other room, a connection ends in
    its own room and the joined one. *)
Lemma join_socket_rooms_switch sid rid uid nm st :
  socket_rooms sid st = [sid]
  ∨ (∃ r, r ≠ sid ∧ r ≠ "" ∧ socket_rooms sid st = [sid; r]) →
  socket_rooms sid (fst (on_join_room sid rid uid nm st))
  = if decide (rid = sid) then [sid] else [sid; rid].
Proof.
  intros Hshape. unfold socket_rooms at 1. rewrite join_socketRooms. simpl.
  assert (Hleft : match find (fun r => bool_decide (r ≠ sid))
                          (socket_rooms sid st) with
                  | Some previousRoom =>
                      if decide (previousRoom = "") then socket_rooms sid st
                      else socket_leave previousRoom (socket_rooms sid st)
                  | None => socket_rooms sid st
                  end = [sid]).
  { destruct Hshape as [-> | (r & Hr & Hne & ->)]; simpl.
    - rewrite bool_decide_eq_false_2 by auto. done.
    - rewrite bool_decide_eq_false_2 by auto.
      rewrite bool_decide_eq_true_2 by done.
      rewrite decide_False by done.
      unfold socket_leave. rewrite filter_cons_True by done.
      rewrite filter_cons_False by auto. done. }
  rewrite Hleft. unfold socket_join.
  destruct (decide (rid = sid)) as [->|Hne].
  - by rewrite decide_True by left.
  - rewrite decide_False; [done|].
    intros ->%list_elem_of_singleton. done.
Qed.

(** Once in the room named by the empty string, a connection leaves no
    room any more. *)
Lemma join_socket_rooms_keep sid rid uid nm st more :
  sid ≠ "" →
  socket_rooms sid st = sid :: "" :: more →
  socket_rooms sid (fst (on_join_room sid rid uid nm st))
  = socket_join rid (socket_rooms sid st).
Proof.
  intros Hsid Hrs. unfold socket_rooms at 1. rewrite join_socketRooms.
  simpl. rewrite Hrs. simpl.
  rewrite bool_decide_eq_false_2 by auto.
  rewrite bool_decide_eq_true_2 by done. by rewrite decide_True.
Qed.

Lemma socket_join_shape sid rid more :
  sid ≠ "" → socket_shape sid (socket_join rid (sid :: "" :: more)).
Proof.
  intros Hsid. right. right. split; [done|]. unfold socket_join.
  destruct (decide _); simpl; eauto.
Qed.

Lemma sockets_ok_initial : sockets_ok initial.
Proof. intros sid rs Hs. simpl in Hs. by rewrite lookup_empty in Hs. Qed.

Lemma join_socketRooms_other sid sid' rid uid nm st :
  sid' ≠ sid →
  socketRooms (fst (on_join_room sid rid uid nm st)) !! sid'
  = socketRooms st !! sid'.
Proof.
  intros Hne. unfold on_join_room.
  destruct (JsMap.get rid _); [|done]. simpl. by rewrite lookup_insert_ne.
Qed.

Lemma sockets_ok_handle sid ev st :
  sockets_ok st → sockets_ok (fst (handle sid ev st)).
Proof.
  intros Hok.
  destruct ev as [rid uid nm | rid uid a0 b0 a1 b1 c w t | rid uid a b
                 | rid uid | rid uid | rid |]; simpl.
  - intros sid' rs Hrs. destruct (decide (sid' = sid)) as [->|Hne].
    + assert (Hrs' : socket_rooms sid (fst (on_join_room sid rid uid nm st))
                     = rs) by (unfold socket_rooms; by rewrite Hrs).
      destruct (socket_shape_default sid st Hok)
        as [Hone | [Htwo | (Hsid & more & Hmore)]].
      * rewrite join_socket_rooms_switch in Hrs' by auto. subst rs.
        destruct (decide (rid = sid)); [by left|].
        destruct (decide (rid = "")) as [->|Hne'].
        -- right. right. split; [done|]. by exists [].
        -- right. left. eauto.
      * rewrite join_socket_rooms_switch in Hrs' by auto. subst rs.
        destruct (decide (rid = sid)); [by left|].
        destruct (decide (rid = "")) as [->|Hne'].
        -- right. right. split; [done|]. by exists [].
        -- right. left. eauto.
      * rewrite (join_socket_rooms_keep _ _ _ _ _ more) in Hrs' by done.
        subst rs. rewrite Hmore. by apply socket_join_shape.
    + rewrite join_socketRooms_other in Hrs by done. by apply Hok.
  - done.
  - unfold on_cursor_move. by destruct (JsMap.get rid (rooms st)).
  - unfold on_request_undo. by destruct (JsMap.get rid (rooms st)).
  - unfold on_request_redo. by destruct (JsMap.get rid (rooms st)).
  - unfold on_clear_canvas. by destruct (JsMap.get rid (rooms st)).
  - unfold on_disconnect.
    destruct (disconnect_rooms sid (rooms st) (userColors st))
      as [[rooms1 uc1] outs]. simpl.
    intros sid' rs Hrs. simpl in Hrs.
    apply lookup_delete_Some in Hrs as [_ Hrs].
    by apply Hok.
Qed.

Lemma sockets_ok_run evs : ∀ st,
  sockets_ok st → sockets_ok (fst (run evs st)).
Proof.
  induction evs as [|[sid ev] evs IH]; intros st Hok; [done|].
  simpl. pose proof (sockets_ok_handle sid ev st Hok) as H1.
  destruct (handle sid ev st) as [st1 out1].
  specialize (IH st1 H1).
  by destruct (run evs st1) as [st2 out2].
Qed.

End RegistryFacts.

(** * Further properties of rooms and of the gateway *)

Module ServerExtras.
Import JsMapFacts JsMapMore ServerFacts RegistryFacts LogViews LogViewFacts.
Import DrawingStateFacts Sample MoreSamples.

(** X9. In every state the server reaches from its initial state, the
    registry lists no room id twice, and a room found under an id
    carries that id, has at least one user (an emptied room does not
    stay in the registry) and lists no userId twice among its users or
    its cursors. *)
Theorem reachable_registry_is_well_formed
    (evs : list (string * Event)) (r : string) (room : Room.t) :
  JsMap.get r (rooms (fst (run evs initial))) = Some room →
  NoDup (JsMap.keys (rooms (fst (run evs initial)))) ∧
  Room.roomId room = r ∧
  Room.users room ≠ [] ∧
  NoDup (JsMap.keys (Room.users room)) ∧
  NoDup (JsMap.keys (Room.cursorPositions room)).
Proof.
  intros Hget.
  pose proof (registry_ok_run evs initial registry_ok_initial) as Hok.
  destruct (room_ok_lookup _ r room Hok Hget) as (? & ? & ? & ? & _).
  split; [apply Hok | done].
Qed.

(** X9 on the room Alice has left to Bob. *)
Lemma reachable_registry_is_well_formed_witness :
  NoDup (JsMap.keys (rooms (fst (run departed_events initial)))) ∧
  Room.roomId
    (Room.mk "r" [("bob", mkUserData "s2" "Bob")] []
       (DrawingState.mk [aliceOp] ∅)) = "r" ∧
  Room.users
    (Room.mk "r" [("bob", mkUserData "s2" "Bob")] []
       (DrawingState.mk [aliceOp] ∅)) ≠ [] ∧
  NoDup (JsMap.keys (Room.users
    (Room.mk "r" [("bob", mkUserData "s2" "Bob")] []
       (DrawingState.mk [aliceOp] ∅)))) ∧
  NoDup (JsMap.keys (Room.cursorPositions
    (Room.mk "r" [("bob", mkUserData "s2" "Bob")] []
       (DrawingState.mk [aliceOp] ∅)))).
Proof.
  apply (reachable_registry_is_well_formed departed_events "r").
  vm_compute. reflexivity.
Defined.

(** X10. In every reachable state the socket.io rooms of a connection
    are its own room alone, or its own room and one other whose name is
    not the empty string, or its own room, the room named by the empty
    string and the rooms joined since. From the first two, a
    [join-room] for [rid] leaves the connection in exactly its own room
    and [rid]; from the third, the room found first is the one named by
    the empty string, which the handler's truthiness test does not
    leave, so the connection stays in all its rooms and [rid] is
    added. *)
Theorem join_room_switches_socket_room
    (evs : list (string * Event)) (sid rid uid userName : string) :
  socket_shape sid (socket_rooms sid (fst (run evs initial))) ∧
  (socket_rooms sid (fst (run evs initial)) = [sid]
   ∨ (∃ r, r ≠ sid ∧ r ≠ ""
           ∧ socket_rooms sid (fst (run evs initial)) = [sid; r]) →
   socket_rooms sid
     (fst (handle sid (JoinRoom rid uid userName) (fst (run evs initial))))
   = if decide (rid = sid) then [sid] else [sid; rid]) ∧
  (∀ more,
     sid ≠ "" →
     socket_rooms sid (fst (run evs initial)) = sid :: "" :: more →
     socket_rooms sid
       (fst (handle sid (JoinRoom rid uid userName) (fst (run evs initial))))
     = if decide (rid ∈ sid :: "" :: more) then sid :: "" :: more
       else sid :: "" :: more ++ [rid]).
Proof.
  pose proof (sockets_ok_run evs initial sockets_ok_initial) as Hok.
  split; [by apply socket_shape_default|]. split.
  - intros Hshape. simpl. by apply join_socket_rooms_switch.
  - intros more Hsid Hrs. simpl.
    rewrite (join_socket_rooms_keep _ _ _ _ _ more) by done.
    rewrite Hrs. unfold socket_join. by destruct (decide _).
Qed.

(** X10: a connection that has joined a room and joins room c is moved;
    one that has joined the room named by the empty string and then b
    is in both, and stays in them when it joins c. *)
Lemma join_room_switches_socket_room_witness :
  socket_rooms "s1"
    (fst (handle "s1" (JoinRoom "c" "alice" "Alice")
            (fst (run Sample.alone_events initial))))
  = ["s1"; "c"] ∧
  socket_rooms "s1"
    (fst (handle "s1" (JoinRoom "c" "u1" "One")
            (fst (run nameless_events initial))))
  = ["s1"; ""; "b"; "c"].
Proof.
  split.
  - apply (proj1 (proj2 (join_room_switches_socket_room
                           Sample.alone_events "s1" "c" "alice" "Alice"))).
    right. exists "a". repeat split; try discriminate.
  - apply (proj2 (proj2 (join_room_switches_socket_room
                           nameless_events "s1" "c" "u1" "One")) ["b"]).
    + discriminate.
    + vm_compute. reflexivity.
Defined.

(** X11. An event that names a room leaves every other room of the
    registry as it is: users, cursors and log. *)
Theorem events_touch_only_their_room
    (sid : string) (ev : Event) (st : Server) (r r' : string) :
  addressed ev = Some r →
  r' ≠ r →
  JsMap.get r' (rooms (fst (handle sid ev st))) = JsMap.get r' (rooms st).
Proof.
  apply handle_other_room.
Qed.

(** X11: clearing room b does not touch Alice's room a. *)
Lemma events_touch_only_their_room_witness :
  JsMap.get "a" (rooms (fst (handle "s9" (ClearCanvas "b") alone_state)))
  = JsMap.get "a" (rooms alone_state).
Proof.
  apply (events_touch_only_their_room "s9" (ClearCanvas "b") alone_state "b").
  - reflexivity.
  - discriminate.
Defined.

(** X12. When the only user of a room is registered with the closing
    socket, the disconnect handler deletes the room; a later [join-room]
    for the same id creates a new room whose only user is the joiner,
    with no cursor and an empty log, and the joiner is sent an empty
    history. *)
Theorem room_lifecycle
    (sid uid userName r : string) (room : Room.t) (st : Server)
    (sid' uid' userName' : string) :
  wf st →
  JsMap.get r (rooms st) = Some room →
  Room.users room = [(uid, mkUserData sid userName)] →
  JsMap.get r (rooms (fst (handle sid Disconnect st))) = None ∧
  JsMap.get r
    (rooms (fst (handle sid' (JoinRoom r uid' userName')
                   (fst (handle sid Disconnect st)))))
  = Some (Room.mk r [(uid', mkUserData sid' userName')] []
            DrawingState.new) ∧
  ∃ c us,
    snd (handle sid' (JoinRoom r uid' userName')
           (fst (handle sid Disconnect st)))
    = [mkEmit (ToSocket sid') (DrawingHistory [] uid' c us);
       mkEmit (ToRoomExcept r sid') (UserJoined uid' userName' c us)].
Proof.
  intros Hwf Hget Husers.
  assert (Hgone : JsMap.get r (rooms (fst (handle sid Disconnect st)))
                  = None).
  { simpl. rewrite on_disconnect_rooms.
    rewrite (disconnect_rooms_get sid r room _ _ Hwf Hget), Husers. simpl.
    rewrite bool_decide_eq_true_2 by done. simpl.
    rewrite Husers. simpl.
    destruct (decide (uid = uid)); [|done]. by case_decide. }
  split; [done|].
  set (st1 := fst (handle sid Disconnect st)) in *. split.
  - simpl. by rewrite join_room_get, Hgone.
  - simpl. unfold on_join_room.
    apply has_false in Hgone as Hhas. rewrite Hhas, get_set_eq. simpl.
    eauto.
Qed.

(** X12 on the room where Alice is alone. *)
Lemma room_lifecycle_witness :
  JsMap.get "r" (rooms (fst (handle "s1" Disconnect solo_state))) = None ∧
  JsMap.get "r"
    (rooms (fst (handle "s2" (JoinRoom "r" "bob" "Bob")
                   (fst (handle "s1" Disconnect solo_state)))))
  = Some (Room.mk "r" [("bob", mkUserData "s2" "Bob")] []
            DrawingState.new) ∧
  ∃ c us,
    snd (handle "s2" (JoinRoom "r" "bob" "Bob")
           (fst (handle "s1" Disconnect solo_state)))
    = [mkEmit (ToSocket "s2") (DrawingHistory [] "bob" c us);
       mkEmit (ToRoomExcept "r" "s2") (UserJoined "bob" "Bob" c us)].
Proof.
  apply (room_lifecycle "s1" "alice" "Alice" "r"
           (Room.mk "r" [("alice", mkUserData "s1" "Alice")] []
              DrawingState.new) solo_state).
  - unfold wf. vm_compute. apply NoDup_singleton.
  - vm_compute. reflexivity.
  - reflexivity.
Defined.

(** X13. A [draw] addressed to an existing room followed by a
    [request-undo] naming the same userId broadcasts the history the
    room had before the draw, leaves that history in the room and the
    drawn segment alone on the user's redo stack. *)
Theorem draw_then_undo_restores_history
    (sid sid' r uid : string) (a0 b0 a1 b1 : Z) (c : string) (w t : Z)
    (room : Room.t) (st : Server) :
  JsMap.get r (rooms st) = Some room →
  snd (handle sid' (RequestUndo r uid)
         (fst (handle sid (Draw r uid a0 b0 a1 b1 c w t) st)))
  = [mkEmit (ToRoom r)
       (DrawingHistoryUndoRedo
          (DrawingState.history (Room.drawingState room)))] ∧
  JsMap.get r
    (rooms (fst (handle sid' (RequestUndo r uid)
                   (fst (handle sid (Draw r uid a0 b0 a1 b1 c w t) st)))))
  = Some (Room.withDrawingState
            (DrawingState.mk
               (DrawingState.history (Room.drawingState room))
               (<[uid := [mkOperation "draw" uid a0 b0 a1 b1 c w t]]>
                  (DrawingState.userRedoStacks (Room.drawingState room))))
            room).
Proof.
  intros Hget.
  assert (Hdraw : JsMap.get r
            (rooms (fst (handle sid (Draw r uid a0 b0 a1 b1 c w t) st)))
          = Some (Room.withDrawingState
                    (DrawingState.addOperation
                       (mkOperation "draw" uid a0 b0 a1 b1 c w t)
                       (Room.drawingState room)) room)).
  { simpl. unfold on_draw. simpl. rewrite Hget. apply get_set_eq. }
  pose proof (append_undo (mkOperation "draw" uid a0 b0 a1 b1 c w t)
                (Room.drawingState room)) as Hundo.
  simpl in Hundo.
  set (st1 := fst (handle sid (Draw r uid a0 b0 a1 b1 c w t) st)) in *.
  split.
  - simpl. unfold on_request_undo. rewrite Hdraw. simpl. by rewrite Hundo.
  - simpl. rewrite (undo_get r uid _ _ Hdraw). simpl. by rewrite Hundo.
Qed.

(** X13 on the room where Alice is alone: Alice draws, then undoes. *)
Lemma draw_then_undo_restores_history_witness :
  snd (handle "s1" (RequestUndo "r" "alice")
         (fst (handle "s1" (Draw "r" "alice" 0 0 5 5 "#FF0000" 3 1000)
                 solo_state)))
  = [mkEmit (ToRoom "r") (DrawingHistoryUndoRedo [])].
Proof.
  apply (proj1 (draw_then_undo_restores_history "s1" "s1" "r" "alice"
                  0 0 5 5 "#FF0000" 3 1000
                  (Room.mk "r" [("alice", mkUserData "s1" "Alice")] []
                     DrawingState.new) solo_state eq_refl)).
Defined.

(** X14. What the disconnect handler does to a room of a well-formed
    registry: with no user registered under the closing socket the room
    is untouched; otherwise the first such user in insertion order, and
    only that one, is removed together with its cursor, and the room is
    deleted exactly when this leaves it without users. A room id absent
    from the registry stays absent. *)
Theorem disconnect_removes_first_user_of_socket
    (sid r : string) (st : Server) :
  (∀ room,
     wf st →
     JsMap.get r (rooms st) = Some room →
     JsMap.get r (rooms (fst (handle sid Disconnect st))) =
     match find (fun e => bool_decide (socketId (snd e) = sid))
                (Room.users room) with
     | Some userEntry =>
         if decide (JsMap.delete (fst userEntry) (Room.users room) = [])
         then None
         else Some (Room.mk (Room.roomId room)
                      (JsMap.delete (fst userEntry) (Room.users room))
                      (JsMap.delete (fst userEntry)
                         (Room.cursorPositions room))
                      (Room.drawingState room))
     | None => Some room
     end) ∧
  (JsMap.get r (rooms st) = None →
   JsMap.get r (rooms (fst (handle sid Disconnect st))) = None).
Proof.
  split.
  - intros room Hwf Hget. simpl. rewrite on_disconnect_rooms.
    rewrite (disconnect_rooms_get sid r room _ _ Hwf Hget).
    destruct (find _ (Room.users room)) as [e|]; [|done].
    unfold Room.removeUser. simpl.
    destruct (JsMap.delete (fst e) (Room.users room)); by repeat case_decide.
  - intros Hnone. simpl. rewrite on_disconnect_rooms.
    apply get_None_keys. apply get_None_keys in Hnone.
    intros Hin. apply Hnone.
    eapply elem_of_sublist; [exact Hin | apply disconnect_rooms_keys].
Qed.

(** X14 on a room where the connection s1 has registered u1 and then
    u2: when s1 closes only u1 is removed, u2 stays in the room. *)
Lemma disconnect_removes_first_user_of_socket_witness :
  Room.users <$> JsMap.get "r" (rooms (fst (handle "s1" Disconnect twice_state)))
  = Some [("u2", mkUserData "s1" "Two"); ("bob", mkUserData "s2" "Bob")].
Proof.
  rewrite (proj1 (disconnect_removes_first_user_of_socket "s1" "r"
                    twice_state)
             (Room.mk "r" [("u1", mkUserData "s1" "One");
                           ("u2", mkUserData "s1" "Two");
                           ("bob", mkUserData "s2" "Bob")] []
                DrawingState.new)).
  - vm_compute. reflexivity.
  - unfold wf. vm_compute. apply NoDup_singleton.
  - vm_compute. reflexivity.
Defined.

(** X15. [Room.addUser] stores the user under its id, overwriting in
    place an entry of the same id, and touches no other entry;
    [Room.removeUser] takes the id out of the users and of the cursors
    (maps without repeated keys) and touches no other entry; adding a
    user that had neither entry nor cursor and removing it again gives
    back the room. *)
Theorem room_add_remove_user
    (uid sid userName : string) (room : Room.t) :
  JsMap.get uid (Room.users (Room.addUser uid sid userName room))
  = Some (mkUserData sid userName) ∧
  JsMap.size (Room.users (Room.addUser uid sid userName room))
  = (if JsMap.has uid (Room.users room) then JsMap.size (Room.users room)
     else S (JsMap.size (Room.users room))) ∧
  (∀ v, v ≠ uid →
     JsMap.get v (Room.users (Room.addUser uid sid userName room))
     = JsMap.get v (Room.users room) ∧
     JsMap.get v (Room.users (Room.removeUser uid room))
     = JsMap.get v (Room.users room) ∧
     JsMap.get v (Room.cursorPositions (Room.removeUser uid room))
     = JsMap.get v (Room.cursorPositions room)) ∧
  (NoDup (JsMap.keys (Room.users room)) →
   JsMap.get uid (Room.users (Room.removeUser uid room)) = None) ∧
  (NoDup (JsMap.keys (Room.cursorPositions room)) →
   JsMap.get uid (Room.cursorPositions (Room.removeUser uid room)) = None) ∧
  (JsMap.get uid (Room.users room) = None →
   JsMap.get uid (Room.cursorPositions room) = None →
   Room.removeUser uid (Room.addUser uid sid userName room) = room).
Proof.
  split; [apply get_set_eq|]. split; [apply size_set|]. split.
  { intros v Hv. simpl.
    by rewrite get_set_ne, !get_delete_ne by done. }
  split; [apply get_delete_eq|]. split; [apply get_delete_eq|].
  intros Hu Hc. unfold Room.removeUser, Room.addUser. simpl.
  rewrite delete_set_fresh, delete_absent by done. by destruct room.
Qed.

(** X15: Bob joins Alice's room and leaves it. *)
Lemma room_add_remove_user_witness :
  Room.removeUser "bob"
    (Room.addUser "bob" "s2" "Bob"
       (Room.mk "a" [("alice", mkUserData "s1" "Alice")]
          [("alice", Position.mk 7 9)] DrawingState.new))
  = Room.mk "a" [("alice", mkUserData "s1" "Alice")]
      [("alice", Position.mk 7 9)] DrawingState.new.
Proof.
  apply (proj2 (proj2 (proj2 (proj2 (proj2
           (room_add_remove_user "bob" "s2" "Bob" _)))))); reflexivity.
Defined.

(** X16. [Room.updateCursor] records the position under the userId,
    keeps one entry per userId (a second update overwrites the first),
    touches neither the other cursors nor the users, and
    [getCursors()] lists one entry per key of the cursor map, exactly
    one of them for the updated userId, with the new position. *)
Theorem room_update_cursor
    (uid : string) (x y x' y' : Z) (room : Room.t) :
  JsMap.get uid (Room.cursorPositions (Room.updateCursor uid x y room))
  = Some (Position.mk x y) ∧
  (∀ v, v ≠ uid →
     JsMap.get v (Room.cursorPositions (Room.updateCursor uid x y room))
     = JsMap.get v (Room.cursorPositions room)) ∧
  Room.users (Room.updateCursor uid x y room) = Room.users room ∧
  Room.updateCursor uid x' y' (Room.updateCursor uid x y room)
  = Room.updateCursor uid x' y' room ∧
  cursor_userId <$> Room.getCursors room
  = JsMap.keys (Room.cursorPositions room) ∧
  (NoDup (JsMap.keys (Room.cursorPositions room)) →
   filter (fun e => cursor_userId e = uid)
     (Room.getCursors (Room.updateCursor uid x y room))
   = [mkCursorEntry uid x y]).
Proof.
  split; [apply get_set_eq|]. split.
  { intros v Hv. simpl. by rewrite get_set_ne. }
  split; [done|]. split.
  { unfold Room.updateCursor. simpl. by rewrite set_set. }
  split.
  { unfold Room.getCursors, JsMap.keys.
    rewrite <- list_fmap_compose. by apply list_fmap_ext. }
  unfold Room.getCursors. simpl.
  generalize (Room.cursorPositions room). intros m Hnd.
  assert (Hnone : ∀ m' : list (string * Position.t),
            uid ∉ JsMap.keys m' →
            filter (fun e => cursor_userId e = uid)
              (map (fun e => mkCursorEntry (fst e) (Position.x (snd e))
                                (Position.y (snd e))) m') = []).
  { induction m' as [|[k p] m' IH]; simpl; [done|].
    intros [Hk Hm']%not_elem_of_cons.
    rewrite filter_cons_False by (simpl; congruence). by apply IH. }
  induction m as [|[k p] m IH]; simpl.
  - by rewrite filter_cons_True.
  - simpl in Hnd. apply NoDup_cons in Hnd as [Hfresh Hnd].
    destruct (decide (k = uid)) as [->|Hne]; simpl.
    + rewrite filter_cons_True by done. by rewrite Hnone.
    + rewrite filter_cons_False by done. by apply IH.
Qed.

(** X16 on Alice's room: the cursor list after Alice moves again. *)
Lemma room_update_cursor_witness :
  filter (fun e => cursor_userId e = "alice")
    (Room.getCursors
       (Room.updateCursor "alice" 1 2
          (Room.mk "a" [("alice", mkUserData "s1" "Alice")]
             [("alice", Position.mk 7 9)] DrawingState.new)))
  = [mkCursorEntry "alice" 1 2].
Proof.
  apply (proj2 (proj2 (proj2 (proj2 (proj2
           (room_update_cursor "alice" 1 2 0 0 _)))))).
  simpl. apply NoDup_singleton.
Defined.

End ServerExtras.

Module CanvasFacts.
Import Canvas2D CanvasDrawing.

Section Painting.

Variable parses : string → bool.
Hypothesis parses_white : parses "#FFFFFF" = true.

Lemma run_calls_app ks1 ks2 s :
  run_calls parses (ks1 ++ ks2) s
  = run_calls parses ks2 (run_calls parses ks1 s).
Proof. apply fold_left_app. Qed.

Lemma apply_strokeStyle v s :
  parses v = true →
  apply parses (strokeStyle v) s
  = mkContext (path s) v (width_ s) (cap s) (join s) (composite s)
      (surface s).
Proof. intros Hv. simpl. by rewrite Hv. Qed.

Lemma apply_lineWidth v s :
  0 < v →
  apply parses (lineWidth v) s
  = mkContext (path s) (style s) v (cap s) (join s) (composite s)
      (surface s).
Proof. intros Hv. simpl. by rewrite decide_True. Qed.

(** The calls that stroke one segment paint it, whatever the drawing
    state was, when its color and width are accepted. *)
Lemma run_segment a0 b0 a1 b1 c w s :
  paintable parses c w = true →
  surface (run_calls parses
             [ beginPath; moveTo a0 b0; lineTo a1 b1;
               strokeStyle (if decide (c = "ERASER") then "#FFFFFF" else c);
               lineWidth w; lineCap "round"; lineJoin "round";
               globalCompositeOperation
                 (if decide (c = "ERASER")
                  then "destination-out" else "source-over");
               stroke ] s)
  = surface s ++ [segment a0 b0 a1 b1 c w].
Proof.
  intros Hp. apply andb_prop in Hp as [Hw Hc].
  apply bool_decide_eq_true in Hw.
  assert (Hstyle : parses (if decide (c = "ERASER") then "#FFFFFF" else c)
                   = true).
  { destruct (decide (c = "ERASER")) as [->|Hne]; [done|].
    apply orb_prop in Hc as [Hc|Hc]; [|done].
    by apply bool_decide_eq_true in Hc. }
  unfold run_calls, segment. cbn [fold_left].
  rewrite (apply_strokeStyle _ _ Hstyle), (apply_lineWidth _ _ Hw).
  reflexivity.
Qed.

(** One replayed operation paints its segment, whatever the drawing
    state was. *)
Lemma run_replay_one op s :
  (type op = "draw" → paintable parses (color op) (width op) = true) →
  surface (run_calls parses (replay_one op) s)
  = surface s
    ++ (if decide (type op = "draw")
        then [segment (x0 op) (y0 op) (x1 op) (y1 op) (color op) (width op)]
        else []).
Proof.
  intros Hp. unfold replay_one. destruct (decide (type op = "draw")).
  - by apply run_segment, Hp.
  - simpl. by rewrite app_nil_r.
Qed.

Lemma run_replay_all ops : ∀ s,
  paintable_ops parses ops →
  surface (run_calls parses (flat_map replay_one ops) s)
  = surface s
    ++ map (fun op => segment (x0 op) (y0 op) (x1 op) (y1 op) (color op)
                        (width op))
         (filter (fun op => type op = "draw") ops).
Proof.
  induction ops as [|op ops IH]; intros s Hall; simpl.
  - by rewrite app_nil_r.
  - apply Forall_cons in Hall as [Hop Hall].
    rewrite run_calls_app, IH, run_replay_one by done.
    destruct (decide (type op = "draw")).
    + rewrite filter_cons_True by done. simpl. by rewrite <- app_assoc.
    + rewrite filter_cons_False by done. by rewrite app_nil_r.
Qed.

Lemma run_reset s :
  surface (run_calls parses [globalCompositeOperation "source-over"] s)
  = surface s.
Proof. done. Qed.

Lemma run_clear ks w h :
  surface (run_calls parses
             (ks ++ [clearRect 0 0 w h;
                     globalCompositeOperation "source-over"]) fresh) = [].
Proof. by rewrite run_calls_app. Qed.

Lemma shows_redraw ops cv :
  paintable_ops parses (default [] ops) →
  shows parses (ctx (redrawCanvas ops cv))
  = map (fun op => segment (x0 op) (y0 op) (x1 op) (y1 op) (color op)
                     (width op))
      (filter (fun op => type op = "draw") (default [] ops)).
Proof.
  intros Hall. unfold shows, redrawCanvas.
  destruct ops as [[|op ops]|]; simpl ctx; try apply run_clear.
  rewrite run_calls_app.
  set (s := run_calls parses (ctx cv ++ _) fresh).
  assert (Hs : surface s = []) by apply run_clear.
  rewrite run_calls_app, run_reset.
  change (replay_one op ++ flat_map replay_one ops)
    with (flat_map replay_one (op :: ops)).
  by rewrite run_replay_all, Hs.
Qed.

Lemma shows_drawRemoteLine a0 b0 a1 b1 c w cv :
  paintable parses c w = true →
  shows parses (ctx (WebSocketClient.drawRemoteLine a0 b0 a1 b1 c w cv))
  = shows parses (ctx cv) ++ [segment a0 b0 a1 b1 c w].
Proof.
  intros Hp. unfold shows, WebSocketClient.drawRemoteLine. simpl ctx.
  rewrite run_calls_app.
  change [beginPath; moveTo a0 b0; lineTo a1 b1;
          strokeStyle (if decide (c = "ERASER") then "#FFFFFF" else c);
          lineWidth w; lineCap "round"; lineJoin "round";
          globalCompositeOperation
            (if decide (c = "ERASER")
             then "destination-out" else "source-over");
          stroke; globalCompositeOperation "source-over"]
    with ([beginPath; moveTo a0 b0; lineTo a1 b1;
           strokeStyle (if decide (c = "ERASER") then "#FFFFFF" else c);
           lineWidth w; lineCap "round"; lineJoin "round";
           globalCompositeOperation
             (if decide (c = "ERASER")
              then "destination-out" else "source-over");
           stroke] ++ [globalCompositeOperation "source-over"]).
  by rewrite run_calls_app, run_reset, run_segment.
Qed.

(** What [draw] paints, read through the color it reports. *)
Lemma draw_calls_reported c :
  currentTool c = "eraser" ∨ currentColor c ≠ "ERASER" →
  (if decide (currentTool c = "eraser") then "#FFFFFF" else currentColor c)
  = (if decide (reportedColor c = "ERASER")
     then "#FFFFFF" else reportedColor c) ∧
  (if decide (currentTool c = "eraser")
   then "destination-out" else "source-over")
  = (if decide (reportedColor c = "ERASER")
     then "destination-out" else "source-over").
Proof.
  intros Hcolor. unfold reportedColor.
  destruct (decide (currentTool c = "eraser")) as [He|He]; [done|].
  destruct Hcolor as [?|Hc]; [done|]. by rewrite !decide_False by done.
Qed.

Lemma shows_draw x y cb c :
  isDrawing c = true →
  currentTool c = "eraser" ∨ currentColor c ≠ "ERASER" →
  paintable parses (reportedColor c) (currentWidth c) = true →
  shows parses (ctx (fst (draw x y cb c)))
  = shows parses (ctx c)
    ++ [segment (lastX c) (lastY c) x y (reportedColor c) (currentWidth c)].
Proof.
  intros Hd Hcolor Hp. unfold draw, shows.
  rewrite Hd. cbn [negb fst ctx]. rewrite run_calls_app.
  destruct (draw_calls_reported c Hcolor) as [-> ->].
  by apply run_segment.
Qed.

End Painting.

Lemma last_cons_default {A} (l : list A) : ∀ a d,
  List.last (a :: l) d = List.last l a.
Proof.
  induction l as [|b l IH]; intros a d; [done|].
  change (List.last (a :: b :: l) d) with (List.last (b :: l) d).
  by rewrite !IH.
Qed.

Lemma draw_idle x y cb c :
  isDrawing c = false → draw x y cb c = (c, None).
Proof. intros Hd. unfold draw. by rewrite Hd. Qed.

Lemma draw_points_idle pts c :
  isDrawing c = false → draw_points pts c = (c, []).
Proof.
  intros Hd. induction pts as [|[x y] pts IH]; [done|].
  simpl. rewrite draw_idle by done. by rewrite IH.
Qed.

End CanvasFacts.

(** * Properties of the client canvas *)

Module CanvasExtras.
Import Canvas2D CanvasDrawing CanvasFacts.

(** X17. Between [startDrawing(x, y)] and [stopDrawing()], the objects
    [draw] hands to its callback for the points visited are the
    segments joining consecutive points, starting at [(x, y)], all with
    the current width and the current color (or ["ERASER"] for the
    eraser tool); the canvas remembers the last point and has buffered
    all of them. Before [startDrawing] and after [stopDrawing], [draw]
    hands out nothing and makes no call on the context. *)
Theorem stroke_is_a_connected_polyline
    (x y : Z) (pts : list (Z * Z)) (c : t) :
  snd (draw_points pts (startDrawing x y c))
  = segments x y pts
      (reportedColor c) (currentWidth c) ∧
  (lastX (fst (draw_points pts (startDrawing x y c))),
   lastY (fst (draw_points pts (startDrawing x y c))))
  = List.last pts (x, y) ∧
  drawingBuffer (fst (draw_points pts (startDrawing x y c)))
  = (x, y) :: pts ∧
  draw_points pts (stopDrawing c) = (stopDrawing c, []) ∧
  draw_points pts (new (canvasWidth c) (canvasHeight c) (cursor c))
  = (new (canvasWidth c) (canvasHeight c) (cursor c), []).
Proof.
  assert (Hgen : ∀ pts c0,
    isDrawing c0 = true →
    snd (draw_points pts c0)
    = segments (lastX c0) (lastY c0) pts
        (reportedColor c0) (currentWidth c0) ∧
    (lastX (fst (draw_points pts c0)), lastY (fst (draw_points pts c0)))
    = List.last pts (lastX c0, lastY c0) ∧
    drawingBuffer (fst (draw_points pts c0)) = drawingBuffer c0 ++ pts).
  { clear. induction pts as [|[x y] pts IH]; intros c0 Hd.
    - simpl. by rewrite app_nil_r.
    - simpl. unfold draw. rewrite Hd. simpl.
      match goal with
      | |- context [draw_points pts ?c1] =>
          destruct (IH c1 eq_refl) as (Hs & Hl & Hb);
          destruct (draw_points pts c1) as [c2 ds] eqn:E
      end.
      simpl in *. rewrite Hs, Hb, <- app_assoc. split; [done|].
      split; [|done].
      change (match pts with
              | [] => (x, y)
              | _ :: _ => List.last pts (lastX c0, lastY c0)
              end) with (List.last ((x, y) :: pts) (lastX c0, lastY c0)).
      by rewrite Hl, last_cons_default. }
  destruct (Hgen pts (startDrawing x y c) eq_refl) as (Hs & Hl & Hb).
  split; [done|]. split; [done|]. split; [done|].
  split; by apply draw_points_idle.
Qed.



(** X19. After [redrawCanvas(operations)] the canvas shows the segments
    of the operations of type ["draw"], in order, each painted as its
    color and width say, and nothing else: whatever had been drawn on
    it before is gone; a missing or empty list leaves it blank. This is
    for operations the canvas accepts: each of type ["draw"] has a
    positive width and a color that is ["ERASER"] or a string the
    browser reads as a color, as it does ["#FFFFFF"]. *)
Theorem redraw_shows_exactly_the_history
    (parses : string → bool)
    (operations : option (list Operation)) (cv : t) :
  parses "#FFFFFF" = true →
  paintable_ops parses (default [] operations) →
  shows parses (ctx (redrawCanvas operations cv))
  = map (fun op => segment (x0 op) (y0 op) (x1 op) (y1 op) (color op)
                     (width op))
      (filter (fun op => type op = "draw") (default [] operations)).
Proof. intros Hwhite Hall. by apply shows_redraw. Qed.

(** X19 on a canvas with a red segment, redrawn from a log holding a
    black segment and an eraser segment. *)
Lemma redraw_shows_exactly_the_history_witness :
  shows ClientSamples.hex_color
    (ctx (redrawCanvas
            (Some [mkOperation "draw" "alice" 0 0 5 5 "#000000" 3 1000;
                   mkOperation "draw" "bob" 5 5 9 9 "ERASER" 8 1001])
            (fst (draw 12 15 true ClientSamples.red_stroke))))
  = [segment 0 0 5 5 "#000000" 3; segment 5 5 9 9 "ERASER" 8].
Proof.
  apply (redraw_shows_exactly_the_history ClientSamples.hex_color
           (Some [mkOperation "draw" "alice" 0 0 5 5 "#000000" 3 1000;
                  mkOperation "draw" "bob" 5 5 9 9 "ERASER" 8 1001])
           (fst (draw 12 15 true ClientSamples.red_stroke)) eq_refl).
  repeat constructor.
Defined.

End CanvasExtras.

Module ClientFacts.
Import WebSocketClient.

Lemma withStacks_id c :
  withStacks (localUndoStack c) (localRedoStack c) c = c.
Proof. by destruct c. Qed.

Lemma requestUndo_snoc c stk op :
  socket c && isConnected c = true →
  localUndoStack c = stk ++ [op] →
  requestUndo c
  = (withStacks stk (localRedoStack c ++ [op]) c,
     [emit_request_undo (roomId c) (userId c) (timestamp op)]).
Proof.
  intros Hon Hs. unfold requestUndo.
  by rewrite Hon, Hs, last_snoc, removelast_last.
Qed.

Lemma requestRedo_snoc c stk op :
  socket c && isConnected c = true →
  localRedoStack c = stk ++ [op] →
  requestRedo c
  = (withStacks (localUndoStack c ++ [op]) stk c,
     [emit_request_redo (roomId c) (userId c) (timestamp op)]).
Proof.
  intros Hon Hs. unfold requestRedo.
  by rewrite Hon, Hs, last_snoc, removelast_last.
Qed.

End ClientFacts.

(** * Properties of the client connection *)

Module ClientExtras.
Import WebSocketClient ClientFacts ClientSamples.



(** X21. On a connected client, [requestUndo] moves the last operation
    of the local undo stack onto the local redo stack and emits one
    [request-undo] carrying its timestamp; a [requestRedo] right after
    it gives back the client as it was and emits one [request-redo]
    with the same timestamp. With an empty local stack nothing is
    emitted. *)
Theorem local_undo_then_redo_round_trip
    (c : t) (stk : list Operation) (op : Operation) :
  socket c && isConnected c = true →
  (localUndoStack c = stk ++ [op] →
   requestUndo c
   = (withStacks stk (localRedoStack c ++ [op]) c,
      [emit_request_undo (roomId c) (userId c) (timestamp op)]) ∧
   requestRedo (fst (requestUndo c))
   = (c, [emit_request_redo (roomId c) (userId c) (timestamp op)])) ∧
  (localUndoStack c = [] → requestUndo c = (c, [])) ∧
  (localRedoStack c = [] → requestRedo c = (c, [])).
Proof.
  intros Hon. split; [|split].
  - intros Hs. rewrite (requestUndo_snoc c stk op Hon Hs).
    split; [done|]. simpl.
    rewrite (requestRedo_snoc _ (localRedoStack c) op) by done.
    destruct c. simpl in *. by subst.
  - intros Hs. unfold requestUndo. by rewrite Hon, Hs.
  - intros Hs. unfold requestRedo. by rewrite Hon, Hs.
Qed.

(** X21 on Alice's client. *)
Lemma local_undo_then_redo_round_trip_witness :
  requestRedo (fst (requestUndo alice_client))
  = (alice_client, [emit_request_redo "r" "alice" 2000]).
Proof.
  apply (proj1 (local_undo_then_redo_round_trip alice_client []
                  (mkOperation "draw" "alice" 0 0 5 5 "#FF0000" 3 2000)
                  eq_refl)).
  reflexivity.
Defined.



End ClientExtras.

Module PageFacts.
Import Canvas2D CanvasFacts JsMapFacts ServerFacts.

Lemma draw_existing_room sid r uid a0 b0 a1 b1 c w t st room :
  JsMap.get r (rooms st) = Some room →
  handle sid (Draw r uid a0 b0 a1 b1 c w t) st
  = (mkServer
       (JsMap.set r
          (Room.withDrawingState
             (DrawingState.addOperation
                (mkOperation "draw" uid a0 b0 a1 b1 c w t)
                (Room.drawingState room)) room) (rooms st))
       (userColors st) (socketRooms st),
     [mkEmit (ToRoom r)
        (broadcast_of (mkOperation "draw" uid a0 b0 a1 b1 c w t))]).
Proof. intros Hget. simpl. unfold on_draw. by rewrite Hget. Qed.

(** A run of draws addressed to one existing room: the operations
    logged, in order, and one broadcast for each. *)
Lemma run_draws r evs : ∀ st room,
  JsMap.get r (rooms st) = Some room →
  forallb (fun e => is_draw_to r (snd e)) evs = true →
  ∃ newOps stacks,
    Forall (fun op => type op = "draw") newOps ∧
    length newOps = length evs ∧
    JsMap.get r (rooms (fst (run evs st)))
    = Some (Room.withDrawingState
              (DrawingState.mk
                 (DrawingState.history (Room.drawingState room) ++ newOps)
                 stacks) room) ∧
    snd (run evs st)
    = map (fun op => mkEmit (ToRoom r) (broadcast_of op)) newOps.
Proof.
  induction evs as [|[sid ev] evs IH]; intros st room Hget Hall.
  - exists [], (DrawingState.userRedoStacks (Room.drawingState room)).
    simpl. rewrite app_nil_r. split; [done|]. split; [done|].
    split; [|done]. rewrite Hget. by destruct room as [? ? ? []].
  - simpl in Hall. apply andb_prop in Hall as [Hev Hall].
    destruct ev as [| rid uid a0 b0 a1 b1 c w t | | | | |]; try done.
    simpl in Hev. apply bool_decide_eq_true in Hev as ->.
    cbn [run]. rewrite (draw_existing_room _ _ _ _ _ _ _ _ _ _ _ _ Hget).
    match goal with
    | |- context [run evs ?st1] =>
        destruct (IH st1 _ (get_set_eq _ _ _) Hall)
          as (newOps & stacks & Hty & Hlen & Hroom & Hemits);
        destruct (run evs st1) as [st2 out2]
    end.
    simpl in *.
    exists (mkOperation "draw" uid a0 b0 a1 b1 c w t :: newOps), stacks.
    split; [by constructor|]. split; [simpl; by rewrite Hlen|].
    rewrite Hroom, Hemits, <- app_assoc. done.
Qed.

Lemma receive_broadcasts parses ops : ∀ a,
  parses "#FFFFFF" = true →
  Forall (fun op => paintable parses (color op) (width op) = true) ops →
  shows parses
    (CanvasDrawing.ctx
       (App.canvasDrawing (App.receive_all (map broadcast_of ops) a)))
  = shows parses (CanvasDrawing.ctx (App.canvasDrawing a))
    ++ map (fun op => segment (x0 op) (y0 op) (x1 op) (y1 op) (color op)
                        (width op)) ops.
Proof.
  induction ops as [|op ops IH]; intros a Hwhite Hall.
  - simpl. by rewrite app_nil_r.
  - apply Forall_cons in Hall as [Hop Hall].
    change (App.receive_all (map broadcast_of (op :: ops)) a)
      with (App.receive_all (map broadcast_of ops)
              (App.mk
                 (WebSocketClient.drawRemoteLine (x0 op) (y0 op) (x1 op)
                    (y1 op) (color op) (width op) (App.canvasDrawing a))
                 (App.websocket a))).
    rewrite IH by done. cbn [App.canvasDrawing map].
    by rewrite shows_drawRemoteLine, <- app_assoc.
Qed.

(** Among operations of type ["draw"], [paintable_ops] says each one is
    accepted. *)
Lemma paintable_draws parses ops :
  Forall (fun op => type op = "draw") ops →
  CanvasDrawing.paintable_ops parses ops →
  Forall (fun op => paintable parses (color op) (width op) = true) ops.
Proof.
  intros Hty Hall. induction Hty as [|op ops Hop _ IH]; [done|].
  apply Forall_cons in Hall as [Hp Hall]. constructor; auto.
Qed.

Lemma receive_history h uid c us ms a :
  App.receive_all (DrawingHistory h uid c us :: ms) a
  = App.receive_all ms
      (App.mk (CanvasDrawing.redrawCanvas (Some h) (App.canvasDrawing a))
         (if WebSocketClient.onUsersUpdate (App.websocket a)
          then WebSocketClient.withUsers us (App.websocket a)
          else App.websocket a)).
Proof. reflexivity. Qed.

Lemma receive_undo_redo h ms a :
  App.receive_all (DrawingHistoryUndoRedo h :: ms) a
  = App.receive_all ms
      (App.mk (CanvasDrawing.redrawCanvas (Some h) (App.canvasDrawing a))
         (App.websocket a)).
Proof. reflexivity. Qed.

Lemma receive_cleared ms a :
  App.receive_all (DrawingHistoryCleared :: ms) a
  = App.receive_all ms
      (App.mk (CanvasDrawing.redrawCanvas (Some []) (App.canvasDrawing a))
         (App.websocket a)).
Proof. reflexivity. Qed.

Lemma receive_nil a : App.receive_all [] a = a.
Proof. reflexivity. Qed.

End PageFacts.

(** * Properties across the page and the server *)

Module PageExtras.
Import Canvas2D CanvasFacts JsMapFacts ServerFacts PageFacts.
Import ClientSamples MoreSamples.

(** X23. A page that was sent the history of a room when it joined and
    then receives, in order, the broadcasts of the draws made in the
    room since shows exactly what a page joining after those draws is
    sent to redraw: incremental drawing and full replay agree. This is
    for a log the canvas accepts: each operation of type ["draw"] of
    the room's history after the draws has a positive width and a color
    that is ["ERASER"] or a string the browser reads as a color, as it
    does ["#FFFFFF"]. *)
Theorem incremental_broadcasts_agree_with_replay
    (r : string) (evs : list (string * Event)) (st : Server)
    (room : Room.t) :
  JsMap.get r (rooms st) = Some room →
  forallb (fun e => is_draw_to r (snd e)) evs = true →
  ∃ room',
    JsMap.get r (rooms (fst (run evs st))) = Some room' ∧
    target <$> snd (run evs st) = repeat (ToRoom r) (length evs) ∧
    ∀ parses,
      parses "#FFFFFF" = true →
      CanvasDrawing.paintable_ops parses
        (DrawingState.getHistory (Room.drawingState room')) →
      ∀ early late uid c us uid' c' us',
        shows parses (CanvasDrawing.ctx (App.canvasDrawing
          (App.receive_all
             (DrawingHistory
                (DrawingState.getHistory (Room.drawingState room)) uid c us
              :: (message <$> snd (run evs st))) early)))
        = shows parses (CanvasDrawing.ctx (App.canvasDrawing
            (App.receive_all
               [DrawingHistory
                  (DrawingState.getHistory (Room.drawingState room'))
                  uid' c' us'] late))).
Proof.
  intros Hget Hdraws.
  destruct (run_draws r evs st room Hget Hdraws)
    as (newOps & stacks & Hty & Hlen & Hroom & Hemits).
  eexists. split; [exact Hroom|]. split.
  { rewrite Hemits, <- Hlen. clear.
    induction newOps as [|op ops IH]; [done|]. simpl. by rewrite <- IH. }
  intros parses Hwhite Hall early late uid c us uid' c' us'.
  unfold DrawingState.getHistory in Hall.
  cbn [Room.drawingState Room.withDrawingState DrawingState.history]
    in Hall.
  pose proof Hall as Hsplit. apply Forall_app in Hsplit as [Hold Hnew].
  rewrite Hemits, !receive_history. unfold DrawingState.getHistory.
  rewrite <- list_fmap_compose.
  change (message ∘ _) with broadcast_of.
  change (broadcast_of <$> newOps) with (map broadcast_of newOps).
  rewrite receive_broadcasts by eauto using paintable_draws.
  change (App.receive_all [] ?a) with a.
  cbn [App.canvasDrawing Room.drawingState Room.withDrawingState
       DrawingState.history].
  rewrite !shows_redraw by done. simpl. rewrite filter_app, map_app.
  f_equal. f_equal. symmetry. clear -Hty.
  induction Hty as [|op ops Hop _ IH]; [done|].
  rewrite filter_cons_True by done. by rewrite IH.
Qed.

(** X23 on the room where Alice is alone and draws twice. *)
Lemma incremental_broadcasts_agree_with_replay_witness :
  ∃ room',
    JsMap.get "r" (rooms (fst (run two_draws solo_state))) = Some room' ∧
    target <$> snd (run two_draws solo_state)
    = repeat (ToRoom "r") (length two_draws) ∧
    ∀ early late uid c us uid' c' us',
      shows hex_color (CanvasDrawing.ctx (App.canvasDrawing
        (App.receive_all
           (DrawingHistory
              (DrawingState.getHistory
                 (Room.drawingState
                    (Room.mk "r" [("alice", mkUserData "s1" "Alice")] []
                       DrawingState.new))) uid c us
            :: (message <$> snd (run two_draws solo_state))) early)))
      = shows hex_color (CanvasDrawing.ctx (App.canvasDrawing
          (App.receive_all
             [DrawingHistory
                (DrawingState.getHistory (Room.drawingState room'))
                uid' c' us'] late))).
Proof.
  assert (Hget : JsMap.get "r" (rooms solo_state)
                 = Some (Room.mk "r" [("alice", mkUserData "s1" "Alice")] []
                           DrawingState.new))
    by (vm_compute; reflexivity).
  assert (Hall : forallb (fun e => is_draw_to "r" (snd e)) two_draws = true)
    by (vm_compute; reflexivity).
  destruct (incremental_broadcasts_agree_with_replay "r" two_draws
              solo_state _ Hget Hall)
    as (room' & Hroom & Htargets & Hshow).
  exists room'. split; [exact Hroom|]. split; [exact Htargets|].
  apply (Hshow hex_color); [reflexivity|].
  vm_compute in Hroom. injection Hroom as <-.
  repeat constructor.
Defined.

(** X24. A pointer move on a page that is drawing and connected, in a
    room the server has: the page sends a [cursor-move] and a [draw]
    for the segment from the last point, queues the segment on its
    local undo stack and paints it; the server appends the segment to
    the log of the room and broadcasts it to the room, and a page
    receiving the server's messages paints the same segment as the one
    painted locally. What is painted is stated for a width and a color
    the canvas accepts: the width is positive and the color reported is
    ["ERASER"] or a string the browser reads as a color, as it does
    ["#FFFFFF"]. *)
Theorem pointer_move_reaches_the_room
    (x y now serverNow : Z) (sid : string) (cv : CanvasDrawing.t)
    (ws : WebSocketClient.t) (st : Server) (room : Room.t) :
  WebSocketClient.socket ws && WebSocketClient.isConnected ws = true →
  CanvasDrawing.isDrawing cv = true →
  CanvasDrawing.currentTool cv = "eraser"
  ∨ CanvasDrawing.currentColor cv ≠ "ERASER" →
  JsMap.get (WebSocketClient.roomId ws) (rooms st) = Some room →
  snd (App.on_pointer_move x y now (App.mk cv ws))
  = [WebSocketClient.emit_cursor_move (WebSocketClient.roomId ws)
       (WebSocketClient.userId ws) x y;
     WebSocketClient.emit_draw (WebSocketClient.roomId ws)
       (WebSocketClient.userId ws) (CanvasDrawing.lastX cv)
       (CanvasDrawing.lastY cv) x y (CanvasDrawing.reportedColor cv)
       (CanvasDrawing.currentWidth cv)] ∧
  WebSocketClient.localUndoStack
    (App.websocket (fst (App.on_pointer_move x y now (App.mk cv ws))))
  = WebSocketClient.localUndoStack ws
    ++ [mkOperation "draw" (WebSocketClient.userId ws)
          (CanvasDrawing.lastX cv) (CanvasDrawing.lastY cv) x y
          (CanvasDrawing.reportedColor cv) (CanvasDrawing.currentWidth cv)
          now] ∧
  (∀ parses,
     parses "#FFFFFF" = true →
     paintable parses (CanvasDrawing.reportedColor cv)
       (CanvasDrawing.currentWidth cv) = true →
     shows parses
       (CanvasDrawing.ctx
          (App.canvasDrawing
             (fst (App.on_pointer_move x y now (App.mk cv ws)))))
     = shows parses (CanvasDrawing.ctx cv)
       ++ [segment (CanvasDrawing.lastX cv) (CanvasDrawing.lastY cv) x y
             (CanvasDrawing.reportedColor cv)
             (CanvasDrawing.currentWidth cv)]) ∧
  ∃ cursors users room',
    snd (App.deliver sid serverNow
           (snd (App.on_pointer_move x y now (App.mk cv ws))) st)
    = [mkEmit (ToRoomExcept (WebSocketClient.roomId ws) sid)
         (UserCursors cursors users);
       mkEmit (ToRoom (WebSocketClient.roomId ws))
         (NewDrawOperation (WebSocketClient.userId ws)
            (CanvasDrawing.lastX cv) (CanvasDrawing.lastY cv) x y
            (CanvasDrawing.reportedColor cv)
            (CanvasDrawing.currentWidth cv))] ∧
    JsMap.get (WebSocketClient.roomId ws)
      (rooms (fst (App.deliver sid serverNow
                     (snd (App.on_pointer_move x y now (App.mk cv ws))) st)))
    = Some room' ∧
    DrawingState.history (Room.drawingState room')
    = DrawingState.history (Room.drawingState room)
      ++ [mkOperation "draw" (WebSocketClient.userId ws)
            (CanvasDrawing.lastX cv) (CanvasDrawing.lastY cv) x y
            (CanvasDrawing.reportedColor cv)
            (CanvasDrawing.currentWidth cv) serverNow] ∧
    ∀ parses,
      parses "#FFFFFF" = true →
      paintable parses (CanvasDrawing.reportedColor cv)
        (CanvasDrawing.currentWidth cv) = true →
      ∀ other,
        shows parses (CanvasDrawing.ctx (App.canvasDrawing
          (App.receive_all
             (message <$> snd (App.deliver sid serverNow
                (snd (App.on_pointer_move x y now (App.mk cv ws))) st))
             other)))
        = shows parses (CanvasDrawing.ctx (App.canvasDrawing other))
          ++ [segment (CanvasDrawing.lastX cv) (CanvasDrawing.lastY cv) x y
                (CanvasDrawing.reportedColor cv)
                (CanvasDrawing.currentWidth cv)].
Proof.
  intros Hon Hd Hcolor Hget.
  assert (Hmove : App.on_pointer_move x y now (App.mk cv ws)
    = (App.mk (fst (CanvasDrawing.draw x y true cv))
         (WebSocketClient.withStacks
            (WebSocketClient.localUndoStack ws
               ++ [mkOperation "draw" (WebSocketClient.userId ws)
                     (CanvasDrawing.lastX cv) (CanvasDrawing.lastY cv) x y
                     (CanvasDrawing.reportedColor cv)
                     (CanvasDrawing.currentWidth cv) now]) [] ws),
       [WebSocketClient.emit_cursor_move (WebSocketClient.roomId ws)
          (WebSocketClient.userId ws) x y;
        WebSocketClient.emit_draw (WebSocketClient.roomId ws)
          (WebSocketClient.userId ws) (CanvasDrawing.lastX cv)
          (CanvasDrawing.lastY cv) x y (CanvasDrawing.reportedColor cv)
          (CanvasDrawing.currentWidth cv)])).
  { unfold App.on_pointer_move, WebSocketClient.sendCursorPosition,
      WebSocketClient.sendDrawing, CanvasDrawing.draw.
    simpl. rewrite Hon, Hd. simpl. by rewrite Hon. }
  rewrite Hmove. cbn [fst snd App.canvasDrawing App.websocket].
  split; [done|]. split; [done|].
  split; [intros parses Hwhite Hp; by apply shows_draw|].
  unfold App.deliver. cbn [map WebSocketClient.to_event run].
  assert (Hcur : handle sid
            (CursorMove (WebSocketClient.roomId ws)
               (WebSocketClient.userId ws) x y) st
          = (mkServer
               (JsMap.set (WebSocketClient.roomId ws)
                  (Room.updateCursor (WebSocketClient.userId ws) x y room)
                  (rooms st)) (userColors st) (socketRooms st),
             [mkEmit (ToRoomExcept (WebSocketClient.roomId ws) sid)
                (UserCursors
                   (Room.getCursors
                      (Room.updateCursor (WebSocketClient.userId ws) x y
                         room))
                   (usersWithColors (Room.users room) (userColors st)))])).
  { simpl. unfold on_cursor_move. by rewrite Hget. }
  rewrite Hcur.
  rewrite (draw_existing_room sid _ _ _ _ _ _ _ _ _ _
             (Room.updateCursor (WebSocketClient.userId ws) x y room))
    by (simpl; apply get_set_eq).
  cbn [fst snd app].
  eexists _, _, _. split; [reflexivity|]. split.
  { simpl. apply get_set_eq. }
  split; [done|]. intros parses Hwhite Hp other. unfold broadcast_of.
  cbn [fmap list_fmap message App.receive_all fold_left
       type userId x0 y0 x1 y1 color width
       WebSocketClient.on_message App.canvasDrawing App.websocket].
  destruct (WebSocketClient.onUsersUpdate (App.websocket other));
    cbn [App.canvasDrawing]; by rewrite shows_drawRemoteLine.
Qed.

(** X24 on Alice's page, in the room where Alice is alone. *)
Lemma pointer_move_reaches_the_room_witness :
  shows hex_color
    (CanvasDrawing.ctx
       (App.canvasDrawing
          (fst (App.on_pointer_move 12 15 2002
                  (App.mk red_stroke alice_client)))))
  = shows hex_color (CanvasDrawing.ctx red_stroke)
    ++ [segment 10 10 12 15 "#FF0000" 3].
Proof.
  assert (Hcolor : CanvasDrawing.currentTool red_stroke = "eraser"
                   ∨ CanvasDrawing.currentColor red_stroke ≠ "ERASER")
    by (right; discriminate).
  assert (Hget : JsMap.get (WebSocketClient.roomId alice_client)
                   (rooms solo_state)
                 = Some (Room.mk "r" [("alice", mkUserData "s1" "Alice")] []
                           DrawingState.new))
    by (vm_compute; reflexivity).
  destruct (pointer_move_reaches_the_room 12 15 2002 1005 "s1" red_stroke
              alice_client solo_state _ eq_refl eq_refl Hcolor Hget)
    as (_ & _ & Hlocal & _).
  apply (Hlocal hex_color); reflexivity.
Defined.

(** X26. A [request-undo], [request-redo] or [clear-canvas] for an
    existing room is answered by exactly one message, sent to the whole
    room, and a page receiving it shows, whatever it showed before, what
    a page joining right after is sent to draw: the history the room
    then has (nothing after a clear). Users and cursors of the room are
    not touched. What the pages show is stated for a history the canvas
    accepts: each operation of type ["draw"] has a positive width and a
    color that is ["ERASER"] or a string the browser reads as a color,
    as it does ["#FFFFFF"]. *)
Theorem undo_redo_clear_resync_the_room
    (sid r : string) (ev : Event) (st : Server) (room : Room.t) :
  JsMap.get r (rooms st) = Some room →
  is_resync_of r ev = true →
  ∃ m room',
    snd (handle sid ev st) = [mkEmit (ToRoom r) m] ∧
    JsMap.get r (rooms (fst (handle sid ev st))) = Some room' ∧
    Room.users room' = Room.users room ∧
    Room.cursorPositions room' = Room.cursorPositions room ∧
    (∀ rid, ev = ClearCanvas rid →
            Room.drawingState room' = DrawingState.new) ∧
    ∀ parses,
      parses "#FFFFFF" = true →
      CanvasDrawing.paintable_ops parses
        (DrawingState.getHistory (Room.drawingState room')) →
      ∀ page late uid c us,
        shows parses (CanvasDrawing.ctx (App.canvasDrawing
                                           (App.receive_all [m] page)))
        = shows parses (CanvasDrawing.ctx (App.canvasDrawing
            (App.receive_all
               [DrawingHistory
                  (DrawingState.getHistory (Room.drawingState room'))
                  uid c us] late))).
Proof.
  intros Hget Hev.
  destruct ev as [| | | rid uid | rid uid | rid |]; try done;
    simpl in Hev; apply bool_decide_eq_true in Hev as ->; cbn [handle].
  - unfold on_request_undo. rewrite Hget. cbn [fst snd rooms].
    eexists _, _. split; [reflexivity|]. split; [apply get_set_eq|].
    repeat split; try done. intros parses Hwhite Hall page late uid' c us.
    rewrite receive_undo_redo, receive_history, !receive_nil.
    cbn [App.canvasDrawing]. by rewrite !shows_redraw.
  - unfold on_request_redo. rewrite Hget. cbn [fst snd rooms].
    eexists _, _. split; [reflexivity|]. split; [apply get_set_eq|].
    repeat split; try done. intros parses Hwhite Hall page late uid' c us.
    rewrite receive_undo_redo, receive_history, !receive_nil.
    cbn [App.canvasDrawing]. by rewrite !shows_redraw.
  - unfold on_clear_canvas. rewrite Hget. cbn [fst snd rooms].
    eexists _, _. split; [reflexivity|]. split; [apply get_set_eq|].
    repeat split; try done. intros parses Hwhite Hall page late uid' c us.
    rewrite receive_cleared, receive_history, !receive_nil.
    cbn [App.canvasDrawing]. by rewrite !shows_redraw.
Qed.

(** X26 on the room Alice has left to Bob, after Bob has undone in
    Alice's name: Bob redoes in Alice's name, and the pages show the
    segment again. *)
Lemma undo_redo_clear_resync_the_room_witness :
  ∃ m room',
    snd (handle "s2" (RequestRedo "r" "alice") Sample.departed_undone)
    = [mkEmit (ToRoom "r") m] ∧
    JsMap.get "r"
      (rooms (fst (handle "s2" (RequestRedo "r" "alice")
                     Sample.departed_undone))) = Some room' ∧
    Room.users room' = [("bob", mkUserData "s2" "Bob")] ∧
    Room.cursorPositions room' = [] ∧
    ∀ page late uid c us,
      shows hex_color (CanvasDrawing.ctx (App.canvasDrawing
                                            (App.receive_all [m] page)))
      = [segment 0 0 5 5 "#FF0000" 3] ∧
      shows hex_color (CanvasDrawing.ctx (App.canvasDrawing
        (App.receive_all
           [DrawingHistory
              (DrawingState.getHistory (Room.drawingState room'))
              uid c us] late)))
      = [segment 0 0 5 5 "#FF0000" 3].
Proof.
  assert (Hget : JsMap.get "r" (rooms Sample.departed_undone)
                 = Some (Room.mk "r" [("bob", mkUserData "s2" "Bob")] []
                           (DrawingState.mk []
                              {["alice" := [Sample.aliceOp]]})))
    by (vm_compute; reflexivity).
  destruct (undo_redo_clear_resync_the_room "s2" "r"
              (RequestRedo "r" "alice") Sample.departed_undone _ Hget
              eq_refl)
    as (m & room' & Hemit & Hroom & Husers & Hcursors & _ & Hshow).
  exists m, room'. split; [exact Hemit|]. split; [exact Hroom|].
  split; [exact Husers|]. split; [exact Hcursors|].
  assert (Hhist : DrawingState.getHistory (Room.drawingState room')
                  = [Sample.aliceOp]).
  { vm_compute in Hroom. by injection Hroom as <-. }
  assert (Hall : CanvasDrawing.paintable_ops hex_color
                   (DrawingState.getHistory (Room.drawingState room'))).
  { rewrite Hhist. repeat constructor. }
  intros page late uid c us.
  assert (Hlate :
    shows hex_color (CanvasDrawing.ctx (App.canvasDrawing
      (App.receive_all
         [DrawingHistory
            (DrawingState.getHistory (Room.drawingState room'))
            uid c us] late)))
    = [segment 0 0 5 5 "#FF0000" 3]).
  { rewrite PageFacts.receive_history, PageFacts.receive_nil.
    cbn [App.canvasDrawing]. rewrite Hhist.
    rewrite (shows_redraw hex_color eq_refl (Some [Sample.aliceOp]));
      [reflexivity | repeat constructor]. }
  split; [|exact Hlate].
  by rewrite (Hshow hex_color eq_refl Hall page late uid c us).
Defined.

End PageExtras.

Module SessionFacts.
Import DrawingState DrawingStateFacts LogViews LogViewFacts.
Import JsMapFacts ServerFacts PageFacts Session.

Lemma fmap_snoc_inv {A B} (f : A → B) (l : list A) (k : list B) (y : B) :
  f <$> l = k ++ [y] →
  ∃ l' x, l = l' ++ [x] ∧ f <$> l' = k ∧ f x = y.
Proof.
  intros Heq. destruct l as [|x l' _] using rev_ind.
  - symmetry in Heq. by apply app_eq_nil in Heq as [_ ?].
  - rewrite fmap_app in Heq. simpl in Heq.
    apply app_inj_tail in Heq as [? ?]. eauto.
Qed.

Lemma tracks_draw u undo redo log a0 b0 a1 b1 c w t t' :
  tracks u undo redo log →
  tracks u (undo ++ [mkOperation "draw" u a0 b0 a1 b1 c w t]) []
    (addOperation (mkOperation "draw" u a0 b0 a1 b1 c w t') log).
Proof.
  intros (Hown & Hundo & Hredo). split; [|split].
  - by apply (own_stacks_step (Append _)).
  - simpl. rewrite own_app, !fmap_app, Hundo. f_equal.
    unfold own. by rewrite filter_cons_True.
  - unfold redoStackOf. simpl. by rewrite lookup_delete_eq.
Qed.

Lemma tracks_undo u stk op redo log :
  tracks u (stk ++ [op]) redo log →
  tracks u stk (redo ++ [op]) (fst (undoUserOperation u log)).
Proof.
  intros (Hown & Hundo & Hredo).
  rewrite fmap_app in Hundo. simpl in Hundo. symmetry in Hundo.
  apply fmap_snoc_inv in Hundo as (own' & o & Ho & Hown' & Hop).
  destruct (undo_views u log) as (_ & Hv & Hs & _).
  rewrite Ho, removelast_last in Hv. rewrite Ho, last_snoc in Hs.
  simpl in Hs. split; [|split].
  - by apply (own_stacks_step (Undo u)).
  - by rewrite Hv.
  - rewrite Hs, !fmap_app, Hredo. simpl. by rewrite Hop.
Qed.

Lemma tracks_redo u undo stk op log :
  tracks u undo (stk ++ [op]) log →
  tracks u (undo ++ [op]) stk (fst (redoUserOperation u log)).
Proof.
  intros (Hown & Hundo & Hredo).
  rewrite fmap_app in Hredo. simpl in Hredo. symmetry in Hredo.
  apply fmap_snoc_inv in Hredo as (stk' & o & Ho & Hstk' & Hop).
  destruct (redo_views u log stk' o Ho) as (_ & Hs & _).
  destruct (redo_others u log Hown) as (_ & Hv).
  rewrite Ho, last_snoc in Hv. simpl in Hv. split; [|split].
  - by apply (own_stacks_step (Redo u)).
  - rewrite Hv, !fmap_app, Hundo. simpl. by rewrite Hop.
  - by rewrite Hs.
Qed.

Lemma tracks_other_append u undo redo log op :
  userId op ≠ u →
  tracks u undo redo log → tracks u undo redo (addOperation op log).
Proof.
  intros Hne (Hown & Hundo & Hredo). split; [|split].
  - by apply (own_stacks_step (Append _)).
  - simpl. rewrite own_app. unfold own at 2.
    rewrite filter_cons_False by done. by rewrite app_nil_r.
  - unfold redoStackOf. simpl. by rewrite lookup_delete_ne.
Qed.

Lemma own_other_removed u v h :
  v ≠ u → own u (history (fst (undoUserOperation v h))) = own u (history h).
Proof.
  intros Hne.
  destruct (decide (own v (history h) = [])) as [Hnil|Hsome].
  - by rewrite undo_not_found by (by apply own_nil_iff).
  - destruct (undo_found h v) as (pre & op & post & Hh & Hv & _ & ->).
    { destruct (own v (history h)) as [|o l] eqn:Ho; [done|].
      assert (Hin : o ∈ own v (history h)) by (rewrite Ho; left).
      apply list_elem_of_filter in Hin as [? ?]. eauto. }
    simpl. rewrite Hh, !own_app.
    change (op :: post) with ([op] ++ post). rewrite own_app.
    unfold own at 4. rewrite filter_cons_False by congruence. done.
Qed.

Lemma redoStackOf_other_undo u v h :
  v ≠ u →
  redoStackOf u (fst (undoUserOperation v h)) = redoStackOf u h.
Proof.
  intros Hne. unfold undoUserOperation.
  destruct (scan _ _ _); [|done]. unfold splice1.
  destruct (history h !! _); [|done]. simpl.
  rewrite push_redo. unfold redoStackOf. simpl.
  by rewrite lookup_insert_ne.
Qed.

Lemma tracks_other_undo u v undo redo log :
  v ≠ u →
  tracks u undo redo log →
  tracks u undo redo (fst (undoUserOperation v log)).
Proof.
  intros Hne (Hown & Hundo & Hredo). split; [|split].
  - by apply (own_stacks_step (Undo v)).
  - by rewrite own_other_removed.
  - by rewrite redoStackOf_other_undo.
Qed.

Lemma tracks_other_redo u v undo redo log :
  v ≠ u →
  tracks u undo redo log →
  tracks u undo redo (fst (redoUserOperation v log)).
Proof.
  intros Hne (Hown & Hundo & Hredo). split; [|split].
  - by apply (own_stacks_step (Redo v)).
  - destruct (redoStackOf v log) as [|o l _] eqn:Hstk using rev_ind.
    + by rewrite redo_nothing.
    + destruct (redo_views v log l o Hstk) as (-> & _).
      apply redoStackOf_snoc in Hstk.
      assert (Hv : userId o = v).
      { apply (Hown v _ o Hstk). apply elem_of_app. right. left. }
      rewrite own_app. unfold own at 2.
      rewrite filter_cons_False by congruence. by rewrite app_nil_r.
  - destruct (redoStackOf v log) as [|o l _] eqn:Hstk using rev_ind.
    + by rewrite redo_nothing.
    + destruct (redo_views v log l o Hstk) as (_ & _ & Hoth & _).
      unfold redoStackOf. by rewrite Hoth.
Qed.

Lemma redo_returns u log :
  snd (redoUserOperation u log) = true ↔ redoStackOf u log ≠ [].
Proof.
  destruct (redoStackOf u log) as [|o l _] eqn:Hstk using rev_ind.
  - rewrite redo_nothing by done. simpl. split; [done|]. by intros [].
  - destruct (redo_views u log l o Hstk) as (_ & _ & _ & ->).
    split; [|done]. intros _ Hnil. by apply app_eq_nil in Hnil as [_ ?].
Qed.

Lemma fmap_nil_iff {A B} (f : A → B) (l k : list A) :
  f <$> l = f <$> k → (l ≠ [] ↔ k ≠ []).
Proof.
  intros Heq. apply (f_equal length) in Heq. rewrite !length_fmap in Heq.
  destruct l, k; simpl in *; try done; split; intros ?; done.
Qed.

Lemma deliver_one sid now o st :
  fst (App.deliver sid now [o] st)
  = fst (handle sid (WebSocketClient.to_event o now) st).
Proof.
  unfold App.deliver. simpl.
  by destruct (handle sid (WebSocketClient.to_event o now) st).
Qed.

Lemma mirrors_log c st room log :
  JsMap.get (WebSocketClient.roomId c) (rooms st)
  = Some (Room.withDrawingState log room) →
  tracks (WebSocketClient.userId c) (WebSocketClient.localUndoStack c)
    (WebSocketClient.localRedoStack c) log →
  mirrors c st.
Proof. intros Hget Htr. eexists. split; [exact Hget|done]. Qed.

Lemma mirrors_step sid s c st :
  WebSocketClient.socket c && WebSocketClient.isConnected c = true →
  leaves_alone (WebSocketClient.userId c) (WebSocketClient.roomId c) s
  = true →
  mirrors c st →
  same_client c (fst (step sid s c st)) ∧
  mirrors (fst (step sid s c st)) (snd (step sid s c st)).
Proof.
  intros Hon Halone (room & Hget & Htr).
  destruct s as [a0 b0 a1 b1 col w t t' | | | x y | sid' ev].
  - cbn [step]. unfold WebSocketClient.sendDrawing. rewrite Hon.
    rewrite deliver_one. cbn [WebSocketClient.to_event].
    rewrite (draw_existing_room _ _ _ _ _ _ _ _ _ _ _ _ Hget).
    split; [done|]. cbn [fst snd].
    eapply mirrors_log; [apply get_set_eq|].
    eapply tracks_draw. exact Htr.
  - cbn [step]. unfold WebSocketClient.requestUndo. rewrite Hon.
    destruct (last (WebSocketClient.localUndoStack c)) as [op|] eqn:Hl.
    + rewrite deliver_one. cbn [WebSocketClient.to_event fst snd].
      split; [done|]. apply last_snoc_inv in Hl.
      eapply mirrors_log; [by apply undo_get|].
      cbn [WebSocketClient.localUndoStack WebSocketClient.localRedoStack
           WebSocketClient.withStacks WebSocketClient.userId].
      apply tracks_undo. by rewrite <- Hl.
    + split; [done|]. by exists room.
  - cbn [step]. unfold WebSocketClient.requestRedo. rewrite Hon.
    destruct (last (WebSocketClient.localRedoStack c)) as [op|] eqn:Hl.
    + rewrite deliver_one. cbn [WebSocketClient.to_event fst snd].
      split; [done|]. apply last_snoc_inv in Hl.
      eapply mirrors_log; [by apply redo_get|].
      cbn [WebSocketClient.localUndoStack WebSocketClient.localRedoStack
           WebSocketClient.withStacks WebSocketClient.userId].
      apply tracks_redo. by rewrite <- Hl.
    + split; [done|]. by exists room.
  - cbn [step]. unfold WebSocketClient.sendCursorPosition. rewrite Hon.
    rewrite deliver_one. cbn [WebSocketClient.to_event fst snd].
    split; [done|].
    exists (Room.updateCursor (WebSocketClient.userId c) x y room).
    split; [|done]. simpl. unfold on_cursor_move. rewrite Hget. simpl.
    apply get_set_eq.
  - cbn [step fst snd]. split; [done|].
    destruct ev as [rid uid nm | rid uid a0 b0 a1 b1 col w t | rid uid a b
                   | rid uid | rid uid | rid |]; simpl in Halone;
      try discriminate.
    + destruct (decide (WebSocketClient.roomId c = rid)) as [<-|Hne].
      * exists (Room.addUser uid sid' nm room). split; [|done].
        simpl. by rewrite join_room_get, Hget.
      * exists room. split; [|done].
        by rewrite (RegistryFacts.handle_other_room _ _ _ rid).
    + destruct (decide (WebSocketClient.roomId c = rid)) as [<-|Hne].
      * rewrite (draw_existing_room _ _ _ _ _ _ _ _ _ _ _ _ Hget).
        eapply mirrors_log; [apply get_set_eq|].
        apply tracks_other_append; [|done]. simpl. intros ->.
        apply negb_true_iff, bool_decide_eq_false in Halone. by apply Halone.
      * exists room. split; [|done].
        by rewrite (RegistryFacts.handle_other_room _ _ _ rid).
    + destruct (decide (WebSocketClient.roomId c = rid)) as [<-|Hne].
      * exists (Room.updateCursor uid a b room). split; [|done].
        simpl. unfold on_cursor_move. rewrite Hget. simpl.
        apply get_set_eq.
      * exists room. split; [|done].
        by rewrite (RegistryFacts.handle_other_room _ _ _ rid).
    + destruct (decide (WebSocketClient.roomId c = rid)) as [<-|Hne].
      * eapply mirrors_log; [by apply undo_get|].
        apply tracks_other_undo; [|done]. intros ->.
        apply negb_true_iff, bool_decide_eq_false in Halone. by apply Halone.
      * exists room. split; [|done].
        by rewrite (RegistryFacts.handle_other_room _ _ _ rid).
    + destruct (decide (WebSocketClient.roomId c = rid)) as [<-|Hne].
      * eapply mirrors_log; [by apply redo_get|].
        apply tracks_other_redo; [|done]. intros ->.
        apply negb_true_iff, bool_decide_eq_false in Halone. by apply Halone.
      * exists room. split; [|done].
        by rewrite (RegistryFacts.handle_other_room _ _ _ rid).
    + apply negb_true_iff, bool_decide_eq_false in Halone.
      exists room. split; [|done].
      rewrite (RegistryFacts.handle_other_room _ _ _ rid); done.
Qed.

Lemma mirrors_steps sid ss : ∀ c st,
  WebSocketClient.socket c && WebSocketClient.isConnected c = true →
  forallb (leaves_alone (WebSocketClient.userId c) (WebSocketClient.roomId c))
    ss = true →
  mirrors c st →
  same_client c (fst (steps sid ss c st)) ∧
  mirrors (fst (steps sid ss c st)) (snd (steps sid ss c st)).
Proof.
  induction ss as [|s ss IH]; intros c st Hon Hall Hm.
  - by repeat split.
  - simpl in Hall. apply andb_prop in Hall as [Hs Hall].
    destruct (mirrors_step sid s c st Hon Hs Hm)
      as ((Hsock & Hconn & Hroom & Huser) & Hm1).
    cbn [steps]. destruct (step sid s c st) as [c1 st1]. simpl in *.
    destruct (IH c1 st1) as ((? & ? & ? & ?) & Hm2).
    + by rewrite Hsock, Hconn.
    + by rewrite Huser, Hroom.
    + done.
    + split; [|done]. repeat split; congruence.
Qed.

End SessionFacts.

(** * The local stacks of a page and the log of its room *)

Module SessionExtras.
Import DrawingState LogViews LogViewFacts Session SessionFacts ClientSamples.
Import MoreSamples.

(** X25. Take a connected client whose local undo and redo stacks agree,
    timestamps apart, with its user's operations in the history of its
    room and with its user's redo stack there. Through any sequence of
    its own sendDrawing, requestUndo, requestRedo and sendCursorPosition
    calls, each handled by the server at once, and of events of other
    connections in which no connection closes, nobody clears the room
    and nobody draws, undoes or redoes in the room under the client's
    userId, the stacks stay in agreement; so the client emits a
    request-undo (request-redo) exactly when the server has an operation
    of that user to undo (redo). *)
Theorem local_stacks_mirror_the_room_log
    (sid : string) (ss : list Step) (c : WebSocketClient.t) (st : Server) :
  WebSocketClient.socket c && WebSocketClient.isConnected c = true →
  forallb (leaves_alone (WebSocketClient.userId c) (WebSocketClient.roomId c))
    ss = true →
  mirrors c st →
  mirrors (fst (steps sid ss c st)) (snd (steps sid ss c st)) ∧
  ∀ room,
    JsMap.get (WebSocketClient.roomId c) (rooms (snd (steps sid ss c st)))
    = Some room →
    (snd (WebSocketClient.requestUndo (fst (steps sid ss c st))) ≠ [] ↔
     snd (undoUserOperation (WebSocketClient.userId c)
            (Room.drawingState room)) = true) ∧
    (snd (WebSocketClient.requestRedo (fst (steps sid ss c st))) ≠ [] ↔
     snd (redoUserOperation (WebSocketClient.userId c)
            (Room.drawingState room)) = true).
Proof.
  intros Hon Hall Hm.
  destruct (mirrors_steps sid ss c st Hon Hall Hm)
    as ((Hsock & Hconn & Hroom & Huser) & Hm').
  split; [done|]. intros room Hget.
  destruct Hm' as (room' & Hget' & _ & Hundo & Hredo).
  rewrite Hroom, Hget in Hget'. injection Hget' as <-. rewrite Huser in *.
  assert (Hon' : WebSocketClient.socket (fst (steps sid ss c st))
                 && WebSocketClient.isConnected (fst (steps sid ss c st))
                 = true) by (by rewrite Hsock, Hconn).
  split.
  - destruct (undo_views (WebSocketClient.userId c) (Room.drawingState room))
      as (_ & _ & _ & ->).
    rewrite bool_decide_eq_true, <- (fmap_nil_iff _ _ _ Hundo).
    unfold WebSocketClient.requestUndo. rewrite Hon'.
    destruct (WebSocketClient.localUndoStack (fst (steps sid ss c st)))
      as [|o l _] using rev_ind.
    + simpl. split; intros H; by destruct H.
    + rewrite last_snoc. simpl. split; intros _; [|done].
      intros Hnil. by apply app_eq_nil in Hnil as [_ ?].
  - rewrite redo_returns, <- (fmap_nil_iff _ _ _ Hredo).
    unfold WebSocketClient.requestRedo. rewrite Hon'.
    destruct (WebSocketClient.localRedoStack (fst (steps sid ss c st)))
      as [|o l _] using rev_ind.
    + simpl. split; intros H; by destruct H.
    + rewrite last_snoc. simpl. split; intros _; [|done].
      intros Hnil. by apply app_eq_nil in Hnil as [_ ?].
Qed.

(** X25 on a session of Alice and Bob in room r. *)
Lemma local_stacks_mirror_the_room_log_witness :
  mirrors (fst (steps "s1" shared_session new_alice solo_state))
    (snd (steps "s1" shared_session new_alice solo_state)).
Proof.
  apply (local_stacks_mirror_the_room_log "s1" shared_session new_alice
           solo_state).
  - reflexivity.
  - vm_compute. reflexivity.
  - exists (Room.mk "r" [("alice", mkUserData "s1" "Alice")] []
              DrawingState.new).
    split; [vm_compute; reflexivity|]. split; [|split; reflexivity].
    intros u stk op Hs. simpl in Hs. by rewrite lookup_empty in Hs.
Defined.

End SessionExtras.
